(** * Tidy data: the games notebook (5-TidyData.ipynb)

    The notebook is a linear pipeline over one table of basketball games:
    load the CSV, melt it to one row per (game, team), compute each team's
    days of rest, pivot the rest values back to one row per game, join them
    onto the games, derive the outcome and the win statistics, and hand the
    result to a logistic regression.

    Tables are lists of records in row order; a missing cell (NaN, NaT) is
    [None]; a date is the number of days since 1970-01-01 ([Z]); the float
    columns hold exact rationals ([Qc]). *)

From stdpp Require Import gmap strings list numbers sorting.
From Stdlib Require Import ZArith QArith Qcanon Ascii.

Local Open Scope Z_scope.

(** ** Ordered tables: stable sorting and sorted distinct keys *)

Section Ordering.
Context {A : Type} (leb : A → A → bool).

(** [x] goes in front of the first element it does not exceed, so rows
    that compare equal keep the order they arrive in. *)
Fixpoint insert_by (x : A) (l : list A) : list A :=
  match l with
  | [] => [x]
  | y :: l' => if leb x y then x :: l else y :: insert_by x l'
  end.

(** A stable sort: what [sort_index] and a several-column [sort_values]
    do to the rows of a table. *)
Definition sort_by (l : list A) : list A := foldr insert_by [] l.

(** The same insertion, leaving out a key that is already there. *)
Fixpoint insert_new (x : A) (l : list A) : list A :=
  match l with
  | [] => [x]
  | y :: l' =>
      if leb x y then (if leb y x then l else x :: l)
      else y :: insert_new x l'
  end.

(** The sorted list of the distinct keys of [l]: the index a [groupby]
    or an index union builds. *)
Definition sort_unique (l : list A) : list A := foldr insert_new [] l.

(** The strict part of the order. *)
Definition strictly (a b : A) : Prop := leb a b = true ∧ a ≠ b.
End Ordering.

(** ** The data model *)

(** A missing date sorts after every date ([na_position='last']). *)
Definition date_leb (a b : option Z) : bool :=
  match a, b with
  | Some x, Some y => bool_decide (x ≤ y)
  | _, None => true
  | None, Some _ => false
  end.

(** Lexicographic order on the [(game_id, date)] index. *)
Definition index_leb (a b : nat * option Z) : bool :=
  bool_decide (a.1 < b.1)%nat || (bool_decide (a.1 = b.1) && date_leb a.2 b.2).

(** One line of [data/games.csv] as [read_csv] types it. [column_names]
    renames 'Date', 'Visitor/Neutral', 'PTS', 'Home/Neutral' and 'PTS.1';
    the remaining columns (start time, box score, overtime, notes) are never
    read and only count as cells. *)
Record csv_row := CsvRow {
  Date : option string;
  Visitor_Neutral : option string;
  PTS : option Z;
  Home_Neutral : option string;
  PTS_1 : option Z;
  other_columns : list (option string)
}.

(** A row of [games]: the index levels [game_id] and [date], then the four
    kept columns under their new names. *)
Record game := Game {
  game_id : nat;
  date : option Z;
  away_team : option string;
  away_points : option Z;
  home_team : option string;
  home_points : option Z
}.

(** The two melted columns; [variable] holds one of these labels. *)
Inductive variable := away_team_label | home_team_label.

Global Instance variable_eq_dec : EqDecision variable.
Proof. solve_decision. Defined.

(** The string the column holds for each label. *)
Definition variable_name (v : variable) : string :=
  match v with away_team_label => "away_team" | home_team_label => "home_team" end.

(** A row of the long table: one (game, team) observation. *)
Record observation := Observation {
  obs_game_id : nat;
  obs_date : option Z;
  obs_variable : variable;
  team : option string
}.

Global Instance game_eq_dec : EqDecision game.
Proof. solve_decision. Defined.
Global Instance observation_eq_dec : EqDecision observation.
Proof. solve_decision. Defined.

Definition game_index (g : game) : nat * option Z := (game_id g, date g).
Definition obs_index (r : observation) : nat * option Z := (obs_game_id r, obs_date r).

(** ** The loader *)

Definition notnull {A} (c : option A) : nat :=
  match c with Some _ => 1%nat | None => 0%nat end.

(** Number of non-null cells of a line, over all of its columns. *)
Definition count_notnull (r : csv_row) : nat :=
  (notnull (Date r) + notnull (Visitor_Neutral r) + notnull (PTS r)
   + notnull (Home_Neutral r) + notnull (PTS_1 r)
   + length (filter is_Some (other_columns r)))%nat.

(** [read_csv]: the lines under their default index 0, 1, 2, ... *)
Definition read_csv (lines : list csv_row) : list (nat * csv_row) :=
  imap (λ i r, (i, r)) lines.

(** [.dropna(thresh=n)]: keep the rows with at least [n] non-null cells;
    a kept row keeps its index label. *)
Definition dropna (thresh : nat) (rows : list (nat * csv_row)) : list (nat * csv_row) :=
  filter (λ ir, (thresh ≤ count_notnull ir.2)%nat) rows.

Section Loader.
(** The date parser behind [pd.to_datetime(_, format='%a, %b %d, %Y')]:
    the day a string denotes, or [None] where parsing raises. *)
Variable strptime : string → option Z.

(** A null cell becomes NaT; a string that does not parse raises. *)
Definition to_datetime (cell : option string) : option (option Z) :=
  match cell with
  | None => Some None
  | Some s => Some <$> strptime s
  end.

(** Column selection, [assign(date=...)], [set_index('date', append=True)]
    and [rename_axis] on one kept row. *)
Definition index_row (ir : nat * csv_row) : option game :=
  d ← to_datetime (Date ir.2);
  Some {| game_id := ir.1; date := d;
          away_team := Visitor_Neutral ir.2; away_points := PTS ir.2;
          home_team := Home_Neutral ir.2; home_points := PTS_1 ir.2 |}.

Definition sort_index (rows : list game) : list game :=
  sort_by (λ a b, index_leb (game_index a) (game_index b)) rows.

(** The [games] cell. [None] when a kept date fails to parse. *)
Definition games (lines : list csv_row) : option (list game) :=
  sort_index <$> mapM index_row (dropna 4 (read_csv lines)).
End Loader.

(** The index [games] ends with: labels strictly increasing down the table. *)
Definition increasing_ids (gs : list game) : Prop :=
  StronglySorted (λ a b, (game_id a < game_id b)%nat) gs.

(** ** Wide to long: [tidy] *)

Definition away_observation (g : game) : observation :=
  Observation (game_id g) (date g) away_team_label (away_team g).
Definition home_observation (g : game) : observation :=
  Observation (game_id g) (date g) home_team_label (home_team g).

(** [pd.melt(games.reset_index(), id_vars=['game_id', 'date'],
    value_vars=['away_team', 'home_team'], value_name='team')]: the block
    of away rows, then the block of home rows. *)
Definition melt (gs : list game) : list observation :=
  (away_observation <$> gs) ++ (home_observation <$> gs).

(** The two rows one game contributes. *)
Definition both_observations (g : game) : list observation :=
  [away_observation g; home_observation g].

Definition sort_values (rows : list observation) : list observation :=
  sort_by (λ a b, index_leb (obs_index a) (obs_index b)) rows.

Definition tidy (gs : list game) : list observation := sort_values (melt gs).

(** ** Days of rest *)

(** Difference of two dates in days; NaT when either is missing. *)
Definition days_between (d prev : option Z) : option Z :=
  d ← d; p ← prev; Some (d - p).

(** [groupby('team').date.diff().dt.days]: walking down the table, each row
    is compared with the latest earlier row of its team, kept in [seen].
    The first row of a team, and a row without a team, get NaN. *)
Fixpoint groupby_diff (seen : gmap string (option Z)) (rows : list observation)
    : list (option Z) :=
  match rows with
  | [] => []
  | r :: rows' =>
      match team r with
      | None => None :: groupby_diff seen rows'
      | Some t =>
          (prev ← seen !! t; days_between (obs_date r) prev)
            :: groupby_diff (<[t := obs_date r]> seen) rows'
      end
  end.

(** [tidy.groupby('team').date.diff().dt.days - 1] *)
Definition rest_column (rows : list observation) : list (option Z) :=
  (λ d : option Z, (λ n, n - 1) <$> d) <$> groupby_diff ∅ rows.

(** A row of [tidy] once [tidy['rest']] is assigned. *)
Record tidy_row := TidyRow { obs : observation; rest : option Z }.

Definition assign_rest (rows : list observation) : list tidy_row :=
  zip_with TidyRow rows (rest_column rows).

(** ** Long to wide: [by_game] *)

(** What [pivot_table] does with a group whose mean is NaN. The pandas the
    notebook was written for keeps it, so the unstacked table has a row of
    NaN; later releases drop it before unstacking. Both are modelled. *)
Inductive nan_groups := keep_nan_groups | drop_nan_groups.

Global Instance nan_groups_eq_dec : EqDecision nan_groups.
Proof. solve_decision. Defined.

Definition pivot_index_ltb (a b : nat * Z) : bool :=
  bool_decide (a.1 < b.1)%nat || (bool_decide (a.1 = b.1) && bool_decide (a.2 < b.2)).
Definition pivot_index_leb (a b : nat * Z) : bool :=
  bool_decide (a.1 < b.1)%nat || (bool_decide (a.1 = b.1) && bool_decide (a.2 ≤ b.2)).

(** 'away_team' sorts before 'home_team'. *)
Definition variable_leb (a b : variable) : bool :=
  match a, b with
  | home_team_label, away_team_label => false
  | _, _ => true
  end.

Definition group_leb (a b : nat * Z * variable) : bool :=
  pivot_index_ltb a.1 b.1
  || (bool_decide (a.1.1 = b.1.1) && bool_decide (a.1.2 = b.1.2) && variable_leb a.2 b.2).

(** The [(game_id, date, variable)] group of a row; a row whose date is NaT
    belongs to no group. *)
Definition group_of (r : tidy_row) : option (nat * Z * variable) :=
  d ← obs_date (obs r);
  Some (obs_game_id (obs r), d, obs_variable (obs r)).

(** The mean of a column that skips NaN; NaN when nothing is left. *)
Definition mean (xs : list (option Z)) : option Qc :=
  match omap id xs with
  | [] => None
  | vs => Some (Qc_of_Z (foldr Z.add 0%Z vs) / Qc_of_Z (Z.of_nat (length vs)))%Qc
  end.

(** [data.groupby(['game_id', 'date', 'variable']).agg('mean')] on the
    'rest' column: one entry per group, in key order. *)
Definition groupby_mean (rows : list tidy_row) : list (nat * Z * variable * option Qc) :=
  (λ k, (k, mean (rest <$> filter (λ r, group_of r = Some k) rows)))
    <$> sort_unique group_leb (omap group_of rows).

Definition dropna_groups (p : nan_groups) (agged : list (nat * Z * variable * option Qc))
    : list (nat * Z * variable * option Qc) :=
  match p with
  | keep_nan_groups => agged
  | drop_nan_groups => filter (λ e, is_Some e.2) agged
  end.

(** A row of [by_game], its two columns already renamed. A column that is
    NaN throughout, which some releases leave out of the table, is a column
    of missing values here. *)
Record by_game_row := ByGame {
  bg_game_id : nat;
  bg_date : Z;
  away_rest : option Qc;
  home_rest : option Qc
}.

(** The value unstacked into one cell: NaN when the group is not there. *)
Definition unstacked (agged : list (nat * Z * variable * option Qc))
    (i : nat * Z) (v : variable) : option Qc :=
  e ← head (filter (λ e, e.1 = (i, v)) agged); e.2.

(** [.unstack('variable')]: one row per index key still present. *)
Definition unstack (agged : list (nat * Z * variable * option Qc)) : list by_game_row :=
  (λ i, ByGame i.1 i.2 (unstacked agged i away_team_label)
                       (unstacked agged i home_team_label))
    <$> sort_unique pivot_index_leb ((λ e, e.1.1) <$> agged).

(** [pd.pivot_table(tidy, values='rest', index=['game_id', 'date'],
    columns='variable')] with its columns renamed. *)
Definition pivot_table (p : nan_groups) (rows : list tidy_row) : list by_game_row :=
  unstack (dropna_groups p (groupby_mean rows)).

Definition by_game (p : nan_groups) (gs : list game) : list by_game_row :=
  pivot_table p (assign_rest (tidy gs)).

(** ** Joining back: [df] *)

Record df_row := DfRow {
  df_game_id : nat;
  df_date : option Z;
  df_away_team : option string;
  df_away_points : option Z;
  df_home_team : option string;
  df_home_points : option Z;
  df_away_rest : option Qc;
  df_home_rest : option Qc
}.

Definition by_game_index (b : by_game_row) : nat * option Z :=
  (bg_game_id b, Some (bg_date b)).
Definition df_index (r : df_row) : nat * option Z := (df_game_id r, df_date r).

(** The union of two indexes: the first one when the second is empty or the
    same, their sorted distinct labels otherwise. *)
Definition union_index (i1 i2 : list (nat * option Z)) : list (nat * option Z) :=
  if decide (i2 = [] ∨ i1 = i2) then i1 else sort_unique index_leb (i1 ++ i2).

(** [pd.concat([games, by_game], axis='columns')]: an outer join on the
    index; a label one table lacks gives NaN in that table's columns. *)
Definition concat_columns (gs : list game) (bs : list by_game_row) : list df_row :=
  (λ i,
     let g := head (filter (λ g, game_index g = i) gs) in
     let b := head (filter (λ b, by_game_index b = i) bs) in
     DfRow i.1 i.2 (g ≫= away_team) (g ≫= away_points)
           (g ≫= home_team) (g ≫= home_points)
           (b ≫= away_rest) (b ≫= home_rest))
    <$> union_index (game_index <$> gs) (by_game_index <$> bs).

Definition df (p : nan_groups) (gs : list game) : list df_row :=
  concat_columns gs (by_game p gs).

(** The original columns of a [df] row, read back as a game. *)
Definition games_columns (r : df_row) : game :=
  Game (df_game_id r) (df_date r) (df_away_team r) (df_away_points r)
       (df_home_team r) (df_home_points r).

(** [df['home_win'] = df.home_points > df.away_points]; a comparison with
    NaN is False. *)
Definition home_win (r : df_row) : bool :=
  match df_home_points r, df_away_points r with
  | Some h, Some a => bool_decide (a < h)
  | _, _ => false
  end.

(** [astype(int)] on a float: truncation towards zero. *)
Definition Qc_trunc (q : Qc) : Z := Z.quot (Qnum q) (Z.pos (Qden q)).

(** [delta = (df['home_rest'] - df['away_rest']).dropna().astype(int)]: the
    entries of the series. Where [df] lacks one of the two columns the
    subtraction raises; see [rest_columns_exist]. *)
Definition delta (rows : list df_row) : list (nat * option Z * Z) :=
  omap (λ r, h ← df_home_rest r; a ← df_away_rest r;
             Some (df_index r, Qc_trunc (h - a)%Qc)) rows.

(** ** Win statistics and team strength *)

Global Instance variable_countable : Countable variable.
Proof.
  refine (inj_countable' (λ v, bool_decide (v = home_team_label))
            (λ b : bool, if b then home_team_label else away_team_label) _).
  by intros [].
Defined.

(** A row of the second long table: one (game, team) pair with the game's
    outcome. *)
Record team_game := TeamGame {
  tg_game_id : nat;
  tg_date : option Z;
  tg_home_win : bool;
  home_or_away : variable;
  tg_team : option string
}.

(** Modelled from the spec: the arguments of the melt of step 1.1, which the
    notebook leaves blank ([id_vars = ...], [value_vars = ...]; the file
    solutions/solutions_tidy.py is not in the sources). The identifier
    columns are the index and [home_win]; the home rows come first, as in the
    notebook's goal table. *)
Definition melt_home_win (rows : list df_row) : list team_game :=
  ((λ r, TeamGame (df_game_id r) (df_date r) (home_win r) home_team_label (df_home_team r))
     <$> rows)
  ++ ((λ r, TeamGame (df_game_id r) (df_date r) (home_win r) away_team_label (df_away_team r))
     <$> rows).

(** Modelled from the spec: the column [games['win'] = ...] of step 1.2,
    blank in the notebook, after the hint above it: [home_win] is True and
    the row is the home team's, or [home_win] is False and the row is the
    away team's. *)
Definition win (r : team_game) : bool :=
  (tg_home_win r && bool_decide (home_or_away r = home_team_label))
  || (negb (tg_home_win r) && bool_decide (home_or_away r = away_team_label)).

(** Modelled from the spec: the grouping of step 1.3,
    [games.groupby(...)['win']], by team and home/away tag; a row without a
    team is in no group. Each group keeps its 'win' values in row order. *)
Definition groupby_win (rows : list team_game) : gmap (string * variable) (list bool) :=
  foldr (λ r m,
           match tg_team r with
           | None => m
           | Some t =>
               <[(t, home_or_away r) := win r :: default [] (m !! (t, home_or_away r))]> m
           end) ∅ rows.

(** A row of [wins]: the three columns the notebook asks for. *)
Record wins_row := WinsRow { n_wins : nat; n_games : nat; win_pct : option Qc }.

(** A boolean as the number 'sum' and 'mean' take it for. *)
Definition flag (b : bool) : option Z := Some (if b then 1 else 0).

(** Modelled from the spec: the aggregation of step 1.3, [.agg(...)] with
    'sum' for the number of wins, 'count' for the number of games and
    'mean' for the win percent. *)
Definition agg_win (flags : list bool) : wins_row :=
  {| n_wins := length (filter (λ b, b = true) flags);
     n_games := length flags;
     win_pct := mean (flag <$> flags) |}.

(** Modelled from the spec: the table [wins] of step 1.3, blank in the
    notebook: one row of statistics per (team, home/away) group. *)
Definition wins (rows : list team_game) : gmap (string * variable) wins_row :=
  agg_win <$> groupby_win rows.

(** Modelled from the spec: the series [win_percent] of step 2, blank in the
    notebook: per team, the wins summed over its home and away groups,
    divided by the games summed over them. *)
Definition win_percent (w : gmap (string * variable) wins_row) (t : string) : option Qc :=
  match w !! (t, away_team_label), w !! (t, home_team_label) with
  | None, None => None
  | a, h =>
      let total (f : wins_row → nat) := (from_option f 0 a + from_option f 0 h)%nat in
      Some (Qc_of_Z (Z.of_nat (total n_wins)) / Qc_of_Z (Z.of_nat (total n_games)))%Qc
  end.

(** A row of [df] with the two strength columns. *)
Record strength_row := StrengthRow {
  sr_row : df_row;
  home_strength : option Qc;
  away_strength : option Qc
}.

(** Modelled from the spec: step 3, blank in the notebook: the strengths
    are [df.home_team.map(win_percent)] and [df.away_team.map(win_percent)];
    a team the series lacks, or a missing team, maps to NaN. *)
Definition assign_strength (percent : string → option Qc) (rows : list df_row)
    : list strength_row :=
  (λ r, StrengthRow r (df_home_team r ≫= percent) (df_away_team r ≫= percent)) <$> rows.

(** ** The model frame *)

(** The rows [sm.logit('home_win ~ home_strength + away_strength + home_rest
    + away_rest', df)] is fitted on: a row with a missing value in any
    variable of the formula is dropped. [home_win] is never missing. *)
Definition logit_rows (rows : list strength_row) : list strength_row :=
  filter (λ r, is_Some (home_strength r) ∧ is_Some (away_strength r)
               ∧ is_Some (df_home_rest (sr_row r)) ∧ is_Some (df_away_rest (sr_row r)))
         rows.

(** Modelled from the spec: steps 1 to 3, whose code the notebook leaves
    blank, chained on a games table. *)
Definition strengths (p : nan_groups) (gs : list game) : list strength_row :=
  assign_strength (win_percent (wins (melt_home_win (df p gs)))) (df p gs).

(** ** A date parser for the format '%a, %b %d, %Y' *)

Module Strptime.
Local Open Scope char_scope.

Definition lower (c : ascii) : ascii :=
  let n := nat_of_ascii c in
  if bool_decide (65 ≤ n ≤ 90)%nat then ascii_of_nat (n + 32) else c.

Definition digit (c : ascii) : option Z :=
  let n := Z.of_nat (nat_of_ascii c) in
  if bool_decide (48 ≤ n ≤ 57) then Some (n - 48) else None.

(** The ASCII characters the pattern's [\s] accepts. *)
Definition is_space (c : ascii) : bool :=
  bool_decide (c ∈ [" "; "009"; "010"; "011"; "012"; "013";
                    "028"; "029"; "030"; "031"]).

Definition weekdays : list string :=
  ["mon"; "tue"; "wed"; "thu"; "fri"; "sat"; "sun"]%string.
Definition months : list string :=
  ["jan"; "feb"; "mar"; "apr"; "may"; "jun";
   "jul"; "aug"; "sep"; "oct"; "nov"; "dec"]%string.

(** Position of a three-letter name in a table, whatever its case. *)
Definition name_index (names : list string) (a b c : ascii) : option nat :=
  fst <$> list_find (λ n, n = String.string_of_list_ascii [lower a; lower b; lower c]) names.

Fixpoint drop_spaces (s : list ascii) : list ascii :=
  match s with
  | c :: s' => if is_space c then drop_spaces s' else s
  | [] => []
  end.

(** [\s+]: at least one space. *)
Definition spaces (s : list ascii) : option (list ascii) :=
  match s with
  | c :: s' => if is_space c then Some (drop_spaces s') else None
  | [] => None
  end.

Definition is_leap (y : Z) : bool :=
  bool_decide (y mod 4 = 0) && (bool_decide (y mod 100 ≠ 0) || bool_decide (y mod 400 = 0)).

Definition days_in_month (y m : Z) : Z :=
  if bool_decide (m = 2) then (if is_leap y then 29 else 28)
  else if bool_decide (m ∈ [4; 6; 9; 11]) then 30 else 31.

(** Days from 1970-01-01 to the given civil date. *)
Definition days_from_civil (y m d : Z) : Z :=
  let y' := if bool_decide (m ≤ 2) then y - 1 else y in
  let era := y' `div` 400 in
  let yoe := y' - era * 400 in
  let doy := (153 * (if bool_decide (2 < m) then m - 3 else m + 9) + 2) `div` 5 + d - 1 in
  let doe := yoe * 365 + yoe `div` 4 - yoe `div` 100 + doy in
  era * 146097 + doe - 719468.

(** A valid day of the calendar, within the range of a nanosecond
    timestamp. *)
Definition civil (y m d : Z) : option Z :=
  let n := days_from_civil y m d in
  if bool_decide (1 ≤ d ≤ days_in_month y m ∧ -106751 ≤ n ≤ 106751)
  then Some n else None.

(** [%d]: two digits from 01 to 31, or else one digit from 1 to 9. *)
Definition day_field (s : list ascii) : option (Z * list ascii) :=
  match s with
  | a :: ((b :: s2) as s1) =>
      match digit a, digit b with
      | Some x, Some y =>
          if bool_decide (1 ≤ 10 * x + y ≤ 31) then Some (10 * x + y, s2) else None
      | Some x, None => if bool_decide (1 ≤ x) then Some (x, s1) else None
      | None, _ => None
      end
  | [a] => x ← digit a; if bool_decide (1 ≤ x) then Some (x, []) else None
  | [] => None
  end.

(** The whole pattern: weekday name, comma, month name, day, comma, four
    digits of year, and nothing after. The weekday is read and not
    compared with the date. *)
Definition parse (s : list ascii) : option Z :=
  match s with
  | w1 :: w2 :: w3 :: "," :: s =>
      _ ← name_index weekdays w1 w2 w3;
      s ← spaces s;
      match s with
      | m1 :: m2 :: m3 :: s =>
          m ← name_index months m1 m2 m3;
          s ← spaces s;
          '(d, s) ← day_field s;
          match s with
          | "," :: s =>
              s ← spaces s;
              match s with
              | [y1; y2; y3; y4] =>
                  a ← digit y1; b ← digit y2; c ← digit y3; e ← digit y4;
                  civil (1000 * a + 100 * b + 10 * c + e) (Z.of_nat m + 1) d
              | _ => None
              end
          | _ => None
          end
      | _ => None
      end
  | _ => None
  end.

Definition strptime (s : string) : option Z := parse (String.list_ascii_of_string s).
End Strptime.

(** ** The loader's input, as the notebook describes it

    How many cells of a line hold a value, and what a date in the format
    of the CSV looks like. The loader above uses neither; the facts below
    compare it with them. *)

(** Whether each cell of a line holds a value, over every column of the
    CSV. *)
Definition cell_flags (r : csv_row) : list bool :=
  [bool_decide (is_Some (Date r)); bool_decide (is_Some (Visitor_Neutral r));
   bool_decide (is_Some (PTS r)); bool_decide (is_Some (Home_Neutral r));
   bool_decide (is_Some (PTS_1 r))]
  ++ ((λ c, bool_decide (is_Some c)) <$> other_columns r).

(** The number of non-null values of a line. *)
Definition non_null_values (r : csv_row) : nat :=
  length (filter (λ b : bool, b = true) (cell_flags r)).

Module DateFormat.
Local Open Scope char_scope.

Definition weekday_names : list string :=
  ["Mon"; "Tue"; "Wed"; "Thu"; "Fri"; "Sat"; "Sun"]%string.
Definition month_names : list string :=
  ["Jan"; "Feb"; "Mar"; "Apr"; "May"; "Jun";
   "Jul"; "Aug"; "Sep"; "Oct"; "Nov"; "Dec"]%string.

(** The character of a decimal digit. *)
Definition digit_char (n : Z) : ascii := ascii_of_nat (Z.to_nat (48 + n)).

(** The day of the month, with or without a leading zero. *)
Definition day_chars (padded : bool) (d : Z) : list ascii :=
  if bool_decide (d < 10) && negb padded then [digit_char d]
  else [digit_char (d `div` 10); digit_char (d `mod` 10)].

(** The year in four digits. *)
Definition year_chars (y : Z) : list ascii :=
  [digit_char (y `div` 1000); digit_char ((y `div` 100) `mod` 10);
   digit_char ((y `div` 10) `mod` 10); digit_char (y `mod` 10)].

Definition date_chars (padded : bool) (w : string) (y m d : Z) : list ascii :=
  String.list_ascii_of_string w ++ [","; " "]
  ++ String.list_ascii_of_string (default EmptyString (month_names !! Z.to_nat (m - 1)))
  ++ [" "] ++ day_chars padded d ++ [","; " "] ++ year_chars y.

(** A date written like 'Tue, Oct 27, 2015': the name of a weekday, the
    name of month [m], day [d] and year [y]. *)
Definition date_string (padded : bool) (w : string) (y m d : Z) : string :=
  String.string_of_list_ascii (date_chars padded w y m d).

(** The fields of such a date: any weekday name (it is not compared with
    the date), a day of the calendar, a year of four digits, within the
    range of a nanosecond timestamp. *)
Definition valid_date (w : string) (y m d : Z) : Prop :=
  w ∈ weekday_names
  ∧ 1 ≤ m ≤ 12
  ∧ 1 ≤ d ≤ Strptime.days_in_month y m
  ∧ 0 ≤ y ≤ 9999
  ∧ -106751 ≤ Strptime.days_from_civil y m d ≤ 106751.
End DateFormat.

(** ** A small season *)

Module Season.
Definition line (d v : string) (p : Z) (h : string) (q : Z) : csv_row :=
  CsvRow (Some d) (Some v) (Some p) (Some h) (Some q) [Some "8:00 pm"; Some "Box Score"; None].

(** A separator line of the schedule: a label in the first cell only. *)
Definition playoffs : csv_row :=
  CsvRow (Some "Playoffs") None None None None [None; None; None].

Definition lines : list csv_row :=
  [ line "Tue, Oct 27, 2015" "Detroit Pistons" 106 "Atlanta Hawks" 94;
    line "Tue, Oct 27, 2015" "Cleveland Cavaliers" 95 "Chicago Bulls" 97;
    line "Wed, Oct 28, 2015" "Chicago Bulls" 115 "Detroit Pistons" 100;
    playoffs;
    line "Fri, Oct 30, 2015" "Atlanta Hawks" 97 "Cleveland Cavaliers" 102 ].

(** The same schedule with one more line whose date cell is empty. *)
Definition lines_undated : list csv_row :=
  lines ++ [CsvRow None (Some "Detroit Pistons") (Some 90) (Some "Chicago Bulls") (Some 99)
                   [None; None; None]].

Definition table : list game :=
  [ Game 0 (Some 16735) (Some "Detroit Pistons") (Some 106) (Some "Atlanta Hawks") (Some 94);
    Game 1 (Some 16735) (Some "Cleveland Cavaliers") (Some 95) (Some "Chicago Bulls") (Some 97);
    Game 2 (Some 16736) (Some "Chicago Bulls") (Some 115) (Some "Detroit Pistons") (Some 100);
    Game 4 (Some 16738) (Some "Atlanta Hawks") (Some 97) (Some "Cleveland Cavaliers") (Some 102) ].
End Season.

(** ** The tables read game by game

    What one game puts into each table of the pipeline, given the rest
    values [ρ] of every game and tag. The facts below show that, on a games
    table with increasing labels, each table is the concatenation of these
    pieces. *)

(** The rest value [tidy] holds for game [i] under tag [v]. *)
Definition rest_of (gs : list game) (i : nat) (v : variable) : option Z :=
  r ← head (filter (λ r, (obs_game_id (obs r), obs_variable (obs r)) = (i, v))
                   (assign_rest (tidy gs)));
  rest r.

Section PerGame.
Variable ρ : nat → variable → option Z.

Definition game_rows (g : game) : list tidy_row :=
  [TidyRow (away_observation g) (ρ (game_id g) away_team_label);
   TidyRow (home_observation g) (ρ (game_id g) home_team_label)].

Definition game_groups (g : game) : list (nat * Z * variable) :=
  match date g with
  | Some d => [(game_id g, d, away_team_label); (game_id g, d, home_team_label)]
  | None => []
  end.

Definition game_means (g : game) : list (nat * Z * variable * option Qc) :=
  match date g with
  | Some d =>
      [(game_id g, d, away_team_label, Qc_of_Z <$> ρ (game_id g) away_team_label);
       (game_id g, d, home_team_label, Qc_of_Z <$> ρ (game_id g) home_team_label)]
  | None => []
  end.

(** Whether the game is left with a group after the NaN groups are
    handled. *)
Definition kept (p : nan_groups) (g : game) : Prop :=
  p = keep_nan_groups
  ∨ is_Some (ρ (game_id g) away_team_label)
  ∨ is_Some (ρ (game_id g) home_team_label).

Global Instance kept_dec p g : Decision (kept p g).
Proof. unfold kept. apply _. Defined.

Definition game_pivot (p : nan_groups) (g : game) : list by_game_row :=
  match date g with
  | Some d =>
      if decide (kept p g)
      then [ByGame (game_id g) d (Qc_of_Z <$> ρ (game_id g) away_team_label)
                   (Qc_of_Z <$> ρ (game_id g) home_team_label)]
      else []
  | None => []
  end.

Definition game_labels (p : nan_groups) (g : game) : list (nat * Z) :=
  (λ b, (bg_game_id b, bg_date b)) <$> game_pivot p g.

Definition game_joined (g : game) : df_row :=
  DfRow (game_id g) (date g) (away_team g) (away_points g) (home_team g) (home_points g)
        (date g ≫= λ _, Qc_of_Z <$> ρ (game_id g) away_team_label)
        (date g ≫= λ _, Qc_of_Z <$> ρ (game_id g) home_team_label).
End PerGame.

(** The order of the rows of [tidy]: by game, the away row before the home
    row. *)
Definition obs_before (a b : observation) : Prop :=
  (obs_game_id a < obs_game_id b)%nat
  ∨ (obs_game_id a = obs_game_id b
     ∧ obs_variable a = away_team_label ∧ obs_variable b = home_team_label).

(** ** The outcome read off the games table

    The notions the win statistics are stated with. A game counts as won by
    the home team when its [home_win] is true, and by the away team
    otherwise (the rule of step 1.2). *)

Definition game_home_win (g : game) : bool :=
  match home_points g, away_points g with
  | Some h, Some a => bool_decide (a < h)
  | _, _ => false
  end.

Definition team_in (v : variable) (g : game) : option string :=
  match v with away_team_label => away_team g | home_team_label => home_team g end.

Definition won_in (v : variable) (g : game) : bool :=
  match v with
  | home_team_label => game_home_win g
  | away_team_label => negb (game_home_win g)
  end.

(** Games team [t] played, and games it won, under tag [v]. *)
Definition games_played (gs : list game) (t : string) (v : variable) : nat :=
  length (filter (λ g, team_in v g = Some t) gs).
Definition games_won (gs : list game) (t : string) (v : variable) : nat :=
  length (filter (λ g, won_in v g = true ∧ team_in v g = Some t) gs).

(** A team's wins over its games, home and away together. *)
Definition overall_win_percent (gs : list game) (t : string) : Qc :=
  (Qc_of_Z (Z.of_nat (games_won gs t away_team_label + games_won gs t home_team_label))
   / Qc_of_Z (Z.of_nat (games_played gs t away_team_label
                        + games_played gs t home_team_label)))%Qc.

(** ** The remaining cells of the notebook *)

(** A schedule in date order: no game is dated before a game above it. *)
Definition not_after (a b : option Z) : Prop :=
  ∀ x y, a = Some x → b = Some y → x ≤ y.
Definition chronological (gs : list game) : Prop :=
  StronglySorted (λ a b, not_after (date a) (date b)) gs.

(** [tidy.dropna()]: the rows with no missing cell. The [game_id] and the
    tag are never missing. *)
Definition tidy_dropna (rows : list tidy_row) : list tidy_row :=
  filter (λ r, is_Some (obs_date (obs r)) ∧ is_Some (team (obs r)) ∧ is_Some (rest r))
         rows.

(** Whether [by_game] has the rest column [col]. [pivot_table] makes a
    column for each tag that is left with a group: where the NaN groups
    are kept, either tag as soon as the table has a row; where they are
    dropped, a tag under which some row has a value. *)
Definition has_column (p : nan_groups) (col : by_game_row → option Qc)
    (bs : list by_game_row) : Prop :=
  match p with
  | keep_nan_groups => bs ≠ []
  | drop_nan_groups => Exists (λ b, is_Some (col b)) bs
  end.

Global Instance has_column_dec p col bs : Decision (has_column p col bs).
Proof. destruct p; apply _. Defined.

(** [by_game.dropna()]: the rows with a value in every column the table
    has. *)
Definition by_game_dropna (p : nan_groups) (bs : list by_game_row) : list by_game_row :=
  filter (λ b, (has_column p away_rest bs → is_Some (away_rest b))
               ∧ (has_column p home_rest bs → is_Some (home_rest b))) bs.

(** Both rest columns hold a value somewhere. Then [by_game] has both
    columns, however [pivot_table] treats the NaN groups, and so has [df];
    where one is absent, [df['home_rest'] - df['away_rest']] raises
    KeyError and there is no [delta]. *)
Definition rest_columns_exist (rows : list df_row) : Prop :=
  Exists (λ r, is_Some (df_home_rest r)) rows
  ∧ Exists (λ r, is_Some (df_away_rest r)) rows.

(** *** The bar chart of the rest differences *)

(** [Series.min()] and [Series.max()]: NaN on an empty series. *)
Definition series_min (xs : list Z) : option Z :=
  match xs with [] => None | x :: xs' => Some (foldr Z.min x xs') end.
Definition series_max (xs : list Z) : option Z :=
  match xs with [] => None | x :: xs' => Some (foldr Z.max x xs') end.

(** [Series.value_counts()]: how many times each value occurs. The order of
    its entries is replaced by the [reindex] that follows. *)
Definition value_counts (xs : list Z) : gmap Z nat :=
  foldr (λ x m, <[x := S (default 0%nat (m !! x))]> m) ∅ xs.

(** [np.arange(start, stop)] on integers. *)
Definition arange (start stop : Z) : list Z := seqZ start (stop - start).

(** [.reindex(labels, fill_value=0)] *)
Definition reindex (labels : list Z) (s : gmap Z nat) : list (Z * nat) :=
  (λ v, (v, default 0%nat (s !! v))) <$> labels.

Definition sort_index_counts (s : list (Z * nat)) : list (Z * nat) :=
  sort_by (λ a b, bool_decide (a.1 ≤ b.1)) s.

(** The series the bar chart draws:
    [delta.value_counts().reindex(np.arange(delta.min(), delta.max() + 1),
    fill_value=0).sort_index()]. On an empty [delta] the bounds are NaN and
    [np.arange] raises. *)
Definition delta_counts (d : list (nat * option Z * Z)) : option (list (Z * nat)) :=
  lo ← series_min d.*2;
  hi ← series_max d.*2;
  Some (sort_index_counts (reindex (arange lo (hi + 1)) (value_counts d.*2))).

(** *** Rest by date *)

(** The [(date, variable)] group of a row; a row whose date is NaT belongs
    to no group. *)
Definition date_group (r : tidy_row) : option (Z * variable) :=
  d ← obs_date (obs r); Some (d, obs_variable (obs r)).

Definition date_group_leb (a b : Z * variable) : bool :=
  bool_decide (a.1 < b.1) || (bool_decide (a.1 = b.1) && variable_leb a.2 b.2).

(** [rest = tidy.groupby(['date', 'variable']).rest.mean().dropna()]: the
    groups in key order, without those whose mean is NaN. *)
Definition rest_by_date (rows : list tidy_row) : list (Z * variable * Qc) :=
  omap (λ k, q ← mean (rest <$> filter (λ r, date_group r = Some k) rows); Some (k, q))
       (sort_unique date_group_leb (omap date_group rows)).

(** A row of [rest.unstack()]. A tag no entry carries, which pandas leaves
    out of the columns, is a column of missing values here. *)
Record rest_by_date_row := RestByDate {
  rd_date : Z;
  rd_away : option Qc;
  rd_home : option Qc
}.

Definition unstacked_rest (s : list (Z * variable * Qc)) (d : Z) (v : variable)
    : option Qc :=
  snd <$> head (filter (λ e, e.1 = (d, v)) s).

(** [rest.unstack()]: one row per date still present. *)
Definition unstack_rest (s : list (Z * variable * Qc)) : list rest_by_date_row :=
  (λ d, RestByDate d (unstacked_rest s d away_team_label)
                     (unstacked_rest s d home_team_label))
    <$> sort_unique (λ a b, bool_decide (a ≤ b)) ((λ e, e.1.1) <$> s).

(** *** The quick visualisation of the win percents *)



(** ** Proof automation *)

(** Comparisons of index labels, by cases on their components. *)
Ltac order_crush :=
  repeat match goal with
         | x : _ * _ |- _ => destruct x
         | x : option _ |- _ => destruct x
         | x : variable |- _ => destruct x
         end;
  simpl in *;
  rewrite ?orb_true_iff, ?andb_true_iff, ?bool_decide_eq_true in *;
  intuition (try done; try lia; try (repeat f_equal; lia)).

(** Decide the head of a filtered list of known shape. *)
Ltac filter_step :=
  first
    [ rewrite filter_nil
    | rewrite filter_cons_True by (simpl; first [done | by eexists])
    | rewrite filter_cons_False
        by (simpl; first [congruence | by intros [? ?] | by intros [[? ?] ?]
                         | by intros [? [? ?]] ]) ].

(** * Facts *)

(** ** Insertion into ordered tables *)

Section OrderingFacts.
Context {A : Type} (leb : A → A → bool).

Lemma elem_of_insert_by x y l : y ∈ insert_by leb x l ↔ y = x ∨ y ∈ l.
Proof.
  induction l as [|z l IH]; simpl.
  - rewrite list_elem_of_singleton, elem_of_nil. tauto.
  - destruct (leb x z); rewrite !elem_of_cons; [tauto|]. rewrite IH. tauto.
Qed.

Lemma sort_by_cons x l : sort_by leb (x :: l) = insert_by leb x (sort_by leb l).
Proof. done. Qed.

Lemma sort_unique_cons x l :
  sort_unique leb (x :: l) = insert_new leb x (sort_unique leb l).
Proof. done. Qed.

Lemma elem_of_sort_by y l : y ∈ sort_by leb l ↔ y ∈ l.
Proof.
  induction l as [|z l IH]; [done|].
  rewrite sort_by_cons, elem_of_insert_by, elem_of_cons, IH. tauto.
Qed.

Lemma insert_by_Permutation x l : insert_by leb x l ≡ₚ x :: l.
Proof.
  induction l as [|z l IH]; simpl; [done|].
  destruct (leb x z); [done|]. rewrite IH. apply Permutation_swap.
Qed.

Lemma sort_by_Permutation l : sort_by leb l ≡ₚ l.
Proof.
  induction l as [|z l IH]; [done|].
  by rewrite sort_by_cons, insert_by_Permutation, IH.
Qed.

Lemma length_sort_by l : length (sort_by leb l) = length l.
Proof. by rewrite sort_by_Permutation. Qed.

(** A table already in order is left as it is. *)
Lemma sort_by_sorted l : Sorted (λ a b, leb a b = true) l → sort_by leb l = l.
Proof.
  induction 1 as [|x l Hl IH Hx]; [done|].
  rewrite sort_by_cons, IH.
  destruct Hx as [|y l Hxy]; simpl; [done|]. by rewrite Hxy.
Qed.

(** A row that is strictly below all rows in front of it, and not above
    any row behind it, comes out first: the rest is sorted as if it were
    not there. *)
Lemma sort_by_move_head l1 x l2 :
  Forall (λ a, leb a x = false) l1 →
  Forall (λ b, leb x b = true) l2 →
  sort_by leb (l1 ++ x :: l2) = x :: sort_by leb (l1 ++ l2).
Proof.
  intros H1 H2. induction H1 as [|a l1 Ha H1 IH].
  - assert (Forall (λ b, leb x b = true) (sort_by leb l2)) as Hs.
    { apply Forall_forall. intros b Hb.
      apply (proj1 (elem_of_sort_by _ _)) in Hb.
      rewrite Forall_forall in H2. by apply H2. }
    rewrite !app_nil_l, sort_by_cons.
    destruct Hs as [|b l Hb _]; simpl; [done|]. by rewrite Hb.
  - rewrite <-!app_comm_cons, !sort_by_cons, IH. simpl. by rewrite Ha.
Qed.

Section Total.
Hypothesis leb_total : ∀ x y, leb x y = true ∨ leb y x = true.
Hypothesis leb_trans : ∀ x y z, leb x y = true → leb y z = true → leb x z = true.

Lemma insert_by_Sorted x l :
  Sorted (λ a b, leb a b = true) l → Sorted (λ a b, leb a b = true) (insert_by leb x l).
Proof.
  induction 1 as [|y l Hl IH Hy]; simpl.
  - by repeat constructor.
  - destruct (leb x y) eqn:Hxy.
    + by repeat constructor.
    + constructor; [done|].
      assert (leb y x = true) by (destruct (leb_total x y); congruence).
      destruct Hy as [|z l Hyz]; simpl; [by constructor|].
      destruct (leb x z); by constructor.
Qed.

Lemma sort_by_Sorted l : Sorted (λ a b, leb a b = true) (sort_by leb l).
Proof.
  induction l as [|x l IH]; [constructor|].
  rewrite sort_by_cons. by apply insert_by_Sorted.
Qed.

Hypothesis leb_antisym : ∀ x y, leb x y = true → leb y x = true → x = y.

Lemma strictly_trans x y z : strictly leb x y → strictly leb y z → strictly leb x z.
Proof.
  intros [Hxy Hne] [Hyz Hne']. split; [by eapply leb_trans|].
  intros ->. apply Hne. by apply leb_antisym.
Qed.

Lemma strictly_asym x y : strictly leb x y → strictly leb y x → x = y.
Proof. intros [? _] [? _]. by apply leb_antisym. Qed.

Lemma elem_of_insert_new x y l : y ∈ insert_new leb x l ↔ y = x ∨ y ∈ l.
Proof.
  induction l as [|z l IH]; simpl.
  { rewrite list_elem_of_singleton, elem_of_nil. tauto. }
  destruct (leb x z) eqn:Hxz.
  - destruct (leb z x) eqn:Hzx; rewrite !elem_of_cons; [|tauto].
    assert (x = z) as -> by by apply leb_antisym. tauto.
  - rewrite !elem_of_cons, IH. tauto.
Qed.

Lemma elem_of_sort_unique y l : y ∈ sort_unique leb l ↔ y ∈ l.
Proof.
  induction l as [|z l IH]; [done|].
  rewrite sort_unique_cons, elem_of_insert_new, elem_of_cons, IH. tauto.
Qed.

Lemma insert_new_sorted x l :
  StronglySorted (strictly leb) l → StronglySorted (strictly leb) (insert_new leb x l).
Proof.
  induction 1 as [|y l Hl IH Hy]; simpl; [by repeat constructor|].
  destruct (leb x y) eqn:Hxy.
  - destruct (leb y x) eqn:Hyx; [by constructor|].
    assert (strictly leb x y) as Hs by (split; [done|intros ->; congruence]).
    constructor; [by constructor|]. constructor; [done|].
    eapply Forall_impl; [done|]. intros z Hz. by eapply strictly_trans.
  - constructor; [done|]. apply Forall_forall.
    intros z Hz. apply (proj1 (elem_of_insert_new _ _ _)) in Hz.
    destruct Hz as [->|Hz].
    + split; [destruct (leb_total x y); congruence|]. intros ->.
      destruct (leb_total x x); congruence.
    + rewrite Forall_forall in Hy. by apply Hy.
Qed.

Lemma sort_unique_sorted l : StronglySorted (strictly leb) (sort_unique leb l).
Proof.
  induction l as [|x l IH]; [constructor|].
  rewrite sort_unique_cons. by apply insert_new_sorted.
Qed.

Lemma strictly_sorted_NoDup l : StronglySorted (strictly leb) l → NoDup l.
Proof.
  induction 1 as [|x l Hl IH Hx]; constructor; [|done].
  intros Hin. rewrite Forall_forall in Hx. by destruct (Hx _ Hin).
Qed.

(** The index is determined by its labels: a strictly increasing list
    with the labels of [l] is what [sort_unique] returns. *)
Lemma sort_unique_eq l k :
  StronglySorted (strictly leb) k → (∀ x, x ∈ k ↔ x ∈ l) → sort_unique leb l = k.
Proof.
  intros Hk Hel.
  assert (AntiSymm (=) (strictly leb)) by (intros x y; apply strictly_asym).
  apply (StronglySorted_unique (strictly leb)); [apply sort_unique_sorted|done|].
  apply NoDup_Permutation.
  - apply strictly_sorted_NoDup, sort_unique_sorted.
  - by apply strictly_sorted_NoDup.
  - intros x. by rewrite elem_of_sort_unique, Hel.
Qed.
End Total.
End OrderingFacts.

(** ** The date parser on the notebook's format *)

Example strptime_opening_night : Strptime.strptime "Tue, Oct 27, 2015" = Some 16735.
Proof. reflexivity. Qed.

Example strptime_one_digit_day : Strptime.strptime "sat,  jan 1, 2000" = Some 10957.
Proof. reflexivity. Qed.

Example strptime_separator_line : Strptime.strptime "Playoffs" = None.
Proof. reflexivity. Qed.

Example strptime_no_such_day : Strptime.strptime "Mon, Feb 30, 2016" = None.
Proof. reflexivity. Qed.

(** ** The three index orders *)

Lemma index_leb_total x y : index_leb x y = true ∨ index_leb y x = true.
Proof. unfold index_leb, date_leb. order_crush. Qed.

Lemma index_leb_trans x y z :
  index_leb x y = true → index_leb y z = true → index_leb x z = true.
Proof. unfold index_leb, date_leb. order_crush. Qed.

Lemma index_leb_antisym x y : index_leb x y = true → index_leb y x = true → x = y.
Proof. unfold index_leb, date_leb. order_crush. Qed.

Lemma index_leb_refl x : index_leb x x = true.
Proof. destruct (index_leb_total x x); done. Qed.

Lemma index_leb_lt x y : (x.1 < y.1)%nat → index_leb x y = true ∧ index_leb y x = false.
Proof.
  intros Hlt. split; [unfold index_leb, date_leb; order_crush|].
  apply not_true_iff_false. revert Hlt. unfold index_leb, date_leb. order_crush.
Qed.

Lemma pivot_index_leb_total x y : pivot_index_leb x y = true ∨ pivot_index_leb y x = true.
Proof. unfold pivot_index_leb, pivot_index_ltb. order_crush. Qed.

Lemma pivot_index_leb_trans x y z :
  pivot_index_leb x y = true → pivot_index_leb y z = true → pivot_index_leb x z = true.
Proof. unfold pivot_index_leb, pivot_index_ltb. order_crush. Qed.

Lemma pivot_index_leb_antisym x y :
  pivot_index_leb x y = true → pivot_index_leb y x = true → x = y.
Proof. unfold pivot_index_leb, pivot_index_ltb. order_crush. Qed.

Lemma pivot_index_leb_lt x y : (x.1 < y.1)%nat → pivot_index_leb x y = true.
Proof. unfold pivot_index_leb, pivot_index_ltb. order_crush. Qed.

Lemma group_leb_total x y : group_leb x y = true ∨ group_leb y x = true.
Proof. unfold group_leb, variable_leb, pivot_index_ltb. order_crush. Qed.

Lemma group_leb_trans x y z :
  group_leb x y = true → group_leb y z = true → group_leb x z = true.
Proof. unfold group_leb, variable_leb, pivot_index_ltb. order_crush. Qed.

Lemma group_leb_antisym x y : group_leb x y = true → group_leb y x = true → x = y.
Proof. unfold group_leb, variable_leb, pivot_index_ltb. order_crush. Qed.

Lemma group_leb_lt x y : (x.1.1 < y.1.1)%nat → group_leb x y = true.
Proof. unfold group_leb, variable_leb, pivot_index_ltb. order_crush. Qed.

(** ** The loader *)

Lemma StronglySorted_filter {A} (R : relation A) (P : A → Prop)
    `{∀ x, Decision (P x)} (l : list A) :
  StronglySorted R l → StronglySorted R (filter P l).
Proof.
  induction 1 as [|x l Hl IH Hx]; [constructor|].
  rewrite filter_cons. destruct (decide (P x)); [|done].
  constructor; [done|]. apply Forall_forall. intros y [_ Hy]%list_elem_of_filter.
  rewrite Forall_forall in Hx. by apply Hx.
Qed.

Lemma StronglySorted_Forall2 {A B} (R1 : relation A) (R2 : relation B)
    (Q : A → B → Prop) (l : list A) (k : list B) :
  (∀ x y x' y', Q x x' → Q y y' → R1 x y → R2 x' y') →
  Forall2 Q l k → StronglySorted R1 l → StronglySorted R2 k.
Proof.
  intros HQ HF. induction HF as [|x x' l k Hx HF IH]; [constructor|].
  intros [Hl Hall]%StronglySorted_inv. constructor; [by apply IH|].
  clear IH Hl. induction HF as [|y y' l k Hy HF IH]; [constructor|].
  apply Forall_cons in Hall as [Hxy Hall]. constructor; [by eapply HQ|by apply IH].
Qed.

Lemma elem_of_read_csv i r lines : (i, r) ∈ read_csv lines ↔ lines !! i = Some r.
Proof.
  unfold read_csv. rewrite elem_of_lookup_imap. split.
  - intros (j & y & [= -> ->] & Hj). done.
  - intros Hi. by exists i, r.
Qed.

Lemma read_csv_increasing lines :
  StronglySorted (λ a b : nat * csv_row, (a.1 < b.1)%nat) (read_csv lines).
Proof.
  unfold read_csv.
  cut (∀ k, StronglySorted (λ a b : nat * csv_row, (a.1 < b.1)%nat)
              (imap (λ i r, ((k + i)%nat, r)) lines)).
  { intros Hk. apply (Hk 0%nat). }
  induction lines as [|r lines IH]; intros k; [constructor|].
  rewrite imap_cons.
  rewrite (imap_ext _ (λ i r, ((S k + i)%nat, r))) by (intros; simpl; f_equal; lia).
  constructor; [apply IH|]. apply Forall_forall.
  intros [j y] (i & z & [= -> ->] & _)%elem_of_lookup_imap. simpl. lia.
Qed.

Section LoaderFacts.
Variable strptime : string → option Z.

Lemma index_row_Some ir g :
  index_row strptime ir = Some g ↔
  to_datetime strptime (Date ir.2) = Some (date g)
  ∧ game_id g = ir.1
  ∧ away_team g = Visitor_Neutral ir.2 ∧ away_points g = PTS ir.2
  ∧ home_team g = Home_Neutral ir.2 ∧ home_points g = PTS_1 ir.2.
Proof.
  unfold index_row. destruct (to_datetime strptime (Date ir.2)) as [d|]; simpl.
  - split.
    + intros [= <-]. done.
    + destruct g; simpl. intros ([= ->] & -> & -> & -> & -> & ->). done.
  - split; [done|]. intros (? & _). done.
Qed.

Lemma mapM_index_row_increasing rows gs :
  StronglySorted (λ a b : nat * csv_row, (a.1 < b.1)%nat) rows →
  mapM (index_row strptime) rows = Some gs →
  increasing_ids gs.
Proof.
  intros Hrows HM%mapM_Some. unfold increasing_ids.
  eapply StronglySorted_Forall2; [|exact HM|exact Hrows].
  intros x y x' y' (_ & -> & _)%index_row_Some (_ & -> & _)%index_row_Some. done.
Qed.

Lemma increasing_ids_Sorted gs :
  increasing_ids gs →
  Sorted (λ a b, index_leb (game_index a) (game_index b) = true) gs.
Proof.
  induction 1 as [|g gs Hgs IH Hg]; constructor; [done|].
  destruct Hg as [|g' gs Hlt _]; constructor.
  by apply index_leb_lt.
Qed.

Lemma sort_index_increasing gs : increasing_ids gs → sort_index gs = gs.
Proof. intros Hgs. by apply sort_by_sorted, increasing_ids_Sorted. Qed.

Lemma dropna_read_csv_increasing n lines :
  StronglySorted (λ a b : nat * csv_row, (a.1 < b.1)%nat) (dropna n (read_csv lines)).
Proof. apply StronglySorted_filter, read_csv_increasing. Qed.

(** Sorting changes nothing: the labels come out of [read_csv] in order. *)
Lemma games_Some lines gs :
  games strptime lines = Some gs ↔
  mapM (index_row strptime) (dropna 4 (read_csv lines)) = Some gs.
Proof.
  unfold games.
  destruct (mapM _ _) as [gs0|] eqn:HM; simpl; [|done].
  rewrite sort_index_increasing; [done|].
  eapply mapM_index_row_increasing; [|done]. apply dropna_read_csv_increasing.
Qed.

Lemma games_increasing lines gs : games strptime lines = Some gs → increasing_ids gs.
Proof.
  intros HM%games_Some.
  eapply mapM_index_row_increasing; [|done]. apply dropna_read_csv_increasing.
Qed.

(** The loader returns a table exactly when every kept date parses. *)
Lemma games_is_Some lines :
  is_Some (games strptime lines) ↔
  Forall (λ r, (4 ≤ count_notnull r)%nat → is_Some (to_datetime strptime (Date r))) lines.
Proof.
  unfold games. rewrite fmap_is_Some, mapM_is_Some, !Forall_forall. split.
  - intros Hall r Hr Hthresh.
    apply list_elem_of_lookup in Hr as [i Hi].
    specialize (Hall (i, r)). simpl in Hall. unfold index_row in Hall. simpl in Hall.
    destruct (to_datetime strptime (Date r)); [done|].
    destruct Hall as [? Hall]; [|done].
    apply list_elem_of_filter. split; [done|]. by apply elem_of_read_csv.
  - intros Hall [i r] [Hthresh Hir%elem_of_read_csv]%list_elem_of_filter. simpl in *.
    unfold index_row. simpl.
    destruct (Hall r) as [d ->]; [by eapply list_elem_of_lookup_2|done|done].
Qed.

Lemma elem_of_games lines gs g :
  games strptime lines = Some gs →
  g ∈ gs ↔
  ∃ r, lines !! game_id g = Some r ∧ (4 ≤ count_notnull r)%nat
       ∧ to_datetime strptime (Date r) = Some (date g)
       ∧ away_team g = Visitor_Neutral r ∧ away_points g = PTS r
       ∧ home_team g = Home_Neutral r ∧ home_points g = PTS_1 r.
Proof.
  intros HM%games_Some%mapM_Some. split.
  - intros Hg. apply list_elem_of_lookup in Hg as [n Hn].
    destruct (Forall2_lookup_r _ _ _ _ _ HM Hn) as ([i r] & Hir & Hrow).
    apply list_elem_of_lookup_2, list_elem_of_filter in Hir as [Hthresh Hir].
    apply elem_of_read_csv in Hir. apply index_row_Some in Hrow. simpl in *.
    destruct Hrow as (? & Hid & ?). rewrite Hid. by exists r.
  - intros (r & Hr & Hthresh & Hrest).
    assert ((game_id g, r) ∈ dropna 4 (read_csv lines)) as Hin.
    { apply list_elem_of_filter. split; [done|]. by apply elem_of_read_csv. }
    apply list_elem_of_lookup in Hin as [n Hn].
    destruct (Forall2_lookup_l _ _ _ _ _ HM Hn) as (g' & Hg' & Hrow).
    assert (g' = g) as <-; [|by eapply list_elem_of_lookup_2].
    assert (index_row strptime (game_id g, r) = Some g) as Hg
      by (apply index_row_Some; simpl; tauto).
    congruence.
Qed.
End LoaderFacts.

(** ** Filtering a table built game by game *)

Lemma filter_none {A} (P : A → Prop) `{∀ x, Decision (P x)} (l : list A) :
  (∀ x, x ∈ l → ¬ P x) → filter P l = [].
Proof.
  induction l as [|x l IH]; intros Hno; [done|].
  rewrite filter_cons_False by (apply Hno, list_elem_of_here).
  apply IH. intros y Hy. by apply Hno, list_elem_of_further.
Qed.

Section FilterBind.
Context {A B : Type} (f : A → list B) (P : B → Prop) `{∀ b, Decision (P b)}.

Lemma filter_bind_none (l : list A) :
  (∀ y b, y ∈ l → b ∈ f y → ¬ P b) → filter P (l ≫= f) = [].
Proof.
  induction l as [|y l IH]; intros Hno; [done|].
  rewrite bind_cons, filter_app, IH.
  - rewrite app_nil_r. apply filter_none.
    intros b Hb. apply (Hno y); [apply list_elem_of_here|done].
  - intros z b Hz. apply Hno. by apply list_elem_of_further.
Qed.

Lemma filter_bind_one (l : list A) (x : A) :
  NoDup l → x ∈ l →
  (∀ y b, y ∈ l → y ≠ x → b ∈ f y → ¬ P b) →
  filter P (l ≫= f) = filter P (f x).
Proof.
  induction 1 as [|y l Hy Hl IH]; intros Hx Hno; [by apply elem_of_nil in Hx|].
  rewrite bind_cons, filter_app.
  apply elem_of_cons in Hx as [->|Hx].
  - rewrite filter_bind_none; [by rewrite app_nil_r|].
    intros z b Hz. apply Hno; [by apply list_elem_of_further|].
    intros ->. done.
  - rewrite IH; [|done|].
    + assert (filter P (f y) = []) as ->; [|done].
      apply filter_none. intros b Hb.
      apply (Hno y); [apply list_elem_of_here| |done]. intros ->. done.
    + intros z b Hz. apply Hno. by apply list_elem_of_further.
Qed.
End FilterBind.

(** ** The long table *)

Lemma increasing_ids_NoDup gs : increasing_ids gs → NoDup (game_id <$> gs).
Proof.
  induction 1 as [|g gs Hgs IH Hg]; simpl; constructor; [|done].
  intros (g' & Hid & Hg')%list_elem_of_fmap.
  rewrite Forall_forall in Hg. specialize (Hg _ Hg'). lia.
Qed.

Lemma increasing_ids_inj gs g g' :
  increasing_ids gs → g ∈ gs → g' ∈ gs → game_id g = game_id g' → g = g'.
Proof.
  intros Hgs%increasing_ids_NoDup Hg Hg' Hid.
  apply list_elem_of_lookup in Hg as [i Hi]. apply list_elem_of_lookup in Hg' as [j Hj].
  assert (i = j) as ->; [|congruence].
  eapply NoDup_lookup; [done| |]; rewrite list_lookup_fmap.
  - by rewrite Hi.
  - rewrite Hj. simpl. by rewrite Hid.
Qed.

(** Sorting the melted table interleaves the two blocks: each game's away
    row, then its home row, game after game. *)
Lemma tidy_increasing gs : increasing_ids gs → tidy gs = gs ≫= both_observations.
Proof.
  unfold tidy, sort_values, melt.
  induction 1 as [|g gs Hgs IH Hg]; [done|].
  rewrite !fmap_cons, <-app_comm_cons, sort_by_cons.
  rewrite sort_by_move_head.
  - rewrite IH, bind_cons. simpl.
    change (obs_index (away_observation g)) with (obs_index (home_observation g)).
    by rewrite index_leb_refl.
  - apply Forall_fmap, Forall_forall. intros g' Hg'. simpl.
    rewrite Forall_forall in Hg. by apply index_leb_lt, Hg.
  - apply Forall_fmap, Forall_forall. intros g' Hg'. simpl.
    rewrite Forall_forall in Hg. by apply index_leb_lt, Hg.
Qed.

Lemma length_tidy gs : length (tidy gs) = (2 * length gs)%nat.
Proof.
  unfold tidy, sort_values. rewrite length_sort_by. unfold melt.
  rewrite length_app, !length_fmap. lia.
Qed.

Lemma tidy_rows_of_game gs g :
  increasing_ids gs → g ∈ gs →
  filter (λ r, obs_index r = game_index g) (tidy gs)
  = [away_observation g; home_observation g].
Proof.
  intros Hgs Hg. rewrite tidy_increasing by done.
  rewrite (filter_bind_one _ _ _ g).
  - unfold both_observations.
    rewrite filter_cons_True by done. by rewrite filter_cons_True by done.
  - eapply NoDup_fmap_1, increasing_ids_NoDup, Hgs.
  - done.
  - intros g' r Hg' Hne Hr Hidx. apply Hne.
    apply (increasing_ids_inj gs); [done..|].
    unfold both_observations in Hr.
    apply elem_of_cons in Hr as [->|Hr]; [by injection Hidx|].
    apply list_elem_of_singleton in Hr as ->. by injection Hidx.
Qed.

(** ** Days of rest *)

Lemma length_groupby_diff seen rows : length (groupby_diff seen rows) = length rows.
Proof.
  revert seen. induction rows as [|r rows IH]; intros seen; [done|].
  simpl. destruct (team r); simpl; by rewrite IH.
Qed.

Lemma length_rest_column rows : length (rest_column rows) = length rows.
Proof. unfold rest_column. by rewrite length_fmap, length_groupby_diff. Qed.

(** A row whose team has no earlier row in the table is compared with what
    was seen before the table. *)
Lemma groupby_diff_first seen rows j r t :
  rows !! j = Some r → team r = Some t →
  (∀ k r', (k < j)%nat → rows !! k = Some r' → team r' ≠ Some t) →
  groupby_diff seen rows !! j
  = Some (prev ← seen !! t; days_between (obs_date r) prev).
Proof.
  revert seen j. induction rows as [|r0 rows IH]; intros seen j Hj Ht Hfirst; [done|].
  destruct j as [|j]; simpl in *.
  - injection Hj as ->. by rewrite Ht.
  - assert (team r0 ≠ Some t) as Hne by (apply (Hfirst 0%nat); [lia|done]).
    assert (∀ k r', (k < j)%nat → rows !! k = Some r' → team r' ≠ Some t) as Hfirst'.
    { intros k r' Hk. apply (Hfirst (S k)). lia. }
    destruct (team r0) as [t0|]; simpl.
    + rewrite (IH _ j) by done. rewrite lookup_insert_ne; [done|congruence].
    + by rewrite (IH _ j).
Qed.

(** A row is compared with the latest earlier row of its team. *)
Lemma groupby_diff_previous seen rows i j r1 r2 t :
  (i < j)%nat → rows !! i = Some r1 → rows !! j = Some r2 →
  team r1 = Some t → team r2 = Some t →
  (∀ k r, (i < k < j)%nat → rows !! k = Some r → team r ≠ Some t) →
  groupby_diff seen rows !! j = Some (days_between (obs_date r2) (obs_date r1)).
Proof.
  revert seen i j. induction rows as [|r0 rows IH]; intros seen i j Hij Hi Hj Ht1 Ht2 Hbetween;
    [done|].
  destruct j as [|j]; [lia|]. destruct i as [|i]; simpl in *.
  - injection Hi as ->. rewrite Ht1. simpl.
    rewrite (groupby_diff_first _ _ j r2 t); [|done..|].
    + by rewrite lookup_insert_eq.
    + intros k r' Hk. apply (Hbetween (S k)). lia.
  - assert (∀ k r, (i < k < j)%nat → rows !! k = Some r → team r ≠ Some t) as Hbetween'.
    { intros k r' Hk. apply (Hbetween (S k)). lia. }
    destruct (team r0); simpl; apply (IH _ i j); (done || lia).
Qed.

Lemma assign_rest_lookup rows j r :
  assign_rest rows !! j = Some r ↔
  rows !! j = Some (obs r) ∧ rest_column rows !! j = Some (rest r).
Proof.
  unfold assign_rest. rewrite lookup_zip_with_Some. split.
  - intros (o & z & -> & ? & ?). done.
  - intros [? ?]. exists (obs r), (rest r). by destruct r.
Qed.

(** ** Tables built game by game *)

Lemma omap_bind {A B C} (f : B → option C) (g : A → list B) (l : list A) :
  omap f (l ≫= g) = l ≫= (λ x, omap f (g x)).
Proof.
  induction l as [|x l IH]; [done|]. by rewrite !bind_cons, omap_app, IH.
Qed.

Lemma fmap_bind_list {A B C} (f : B → C) (g : A → list B) (l : list A) :
  f <$> (l ≫= g) = l ≫= (λ x, f <$> g x).
Proof.
  induction l as [|x l IH]; [done|]. by rewrite !bind_cons, fmap_app, IH.
Qed.

Lemma filter_bind {A B} (P : B → Prop) `{∀ b, Decision (P b)} (g : A → list B)
    (l : list A) :
  filter P (l ≫= g) = l ≫= (λ x, filter P (g x)).
Proof.
  induction l as [|x l IH]; [done|]. by rewrite !bind_cons, filter_app, IH.
Qed.

Lemma bind_ext_elem {A B} (f g : A → list B) (l : list A) :
  (∀ x, x ∈ l → f x = g x) → l ≫= f = l ≫= g.
Proof. intros Hfg. apply Forall_bind_ext. by apply Forall_forall. Qed.

Lemma fmap_ext_elem {A B} (f g : A → B) (l : list A) :
  (∀ x, x ∈ l → f x = g x) → f <$> l = g <$> l.
Proof.
  intros Hfg. apply list_fmap_ext. intros i x Hi.
  by eapply Hfg, list_elem_of_lookup_2.
Qed.

Lemma bind_singletons {A B} (f : A → B) (l : list A) : l ≫= (λ x, [f x]) = f <$> l.
Proof. induction l as [|x l IH]; [done|]. by rewrite bind_cons, fmap_cons, IH. Qed.

(** Pieces that carry their game's label, in a relation that holds across
    labels, concatenate to an ordered table. *)
Lemma StronglySorted_bind {B} (R : relation B) (f : game → list B) (idb : B → nat)
    (gs : list game) :
  increasing_ids gs →
  (∀ g b, b ∈ f g → idb b = game_id g) →
  (∀ b b', (idb b < idb b')%nat → R b b') →
  (∀ g, StronglySorted R (f g)) →
  StronglySorted R (gs ≫= f).
Proof.
  intros Hgs Hid HR Hf. induction Hgs as [|g gs Hgs IH Hg]; [constructor|].
  rewrite bind_cons. apply StronglySorted_app_2; [|done..].
  intros b b' Hb (g' & Hb' & Hg')%list_elem_of_bind.
  apply HR. rewrite (Hid _ _ Hb), (Hid _ _ Hb').
  rewrite Forall_forall in Hg. by apply Hg.
Qed.

(** Only the game with the right label contributes to a selection by
    label. *)
Lemma filter_bind_game {B} (P : B → Prop) `{∀ b, Decision (P b)} (f : game → list B)
    (idb : B → nat) (gs : list game) (g : game) :
  increasing_ids gs → g ∈ gs →
  (∀ g' b, b ∈ f g' → idb b = game_id g') →
  (∀ b, P b → idb b = game_id g) →
  filter P (gs ≫= f) = filter P (f g).
Proof.
  intros Hgs Hg Hid HP. apply filter_bind_one; [|done|].
  - eapply NoDup_fmap_1, increasing_ids_NoDup, Hgs.
  - intros g' b Hg' Hne Hb HPb. apply Hne.
    apply (increasing_ids_inj gs); [done..|].
    by rewrite <-(Hid _ _ Hb), (HP _ HPb).
Qed.

Lemma mean_singleton (x : option Z) : mean [x] = Qc_of_Z <$> x.
Proof.
  destruct x as [n|]; [|done]. unfold mean. simpl. f_equal.
  rewrite Z.add_0_r. apply (right_id 1%Qc Qcdiv).
Qed.

(** ** From the long table with its rest values to [by_game] and [df] *)

Section PerGameFacts.
Variable ρ : nat → variable → option Z.
Variable gs : list game.
Hypothesis Hgs : increasing_ids gs.

Lemma game_rows_id g r : r ∈ game_rows ρ g → obs_game_id (obs r) = game_id g.
Proof.
  unfold game_rows. rewrite !elem_of_cons, elem_of_nil. by intros [->|[->|[]]].
Qed.

Lemma game_groups_id g k : k ∈ game_groups g → k.1.1 = game_id g.
Proof.
  unfold game_groups. destruct (date g); [|by rewrite elem_of_nil].
  rewrite !elem_of_cons, elem_of_nil. by intros [->|[->|[]]].
Qed.

Lemma game_means_id g e : e ∈ game_means ρ g → e.1.1.1 = game_id g.
Proof.
  unfold game_means. destruct (date g); [|by rewrite elem_of_nil].
  rewrite !elem_of_cons, elem_of_nil. by intros [->|[->|[]]].
Qed.

Lemma game_pivot_id p g b :
  b ∈ game_pivot ρ p g → bg_game_id b = game_id g ∧ date g = Some (bg_date b).
Proof.
  unfold game_pivot. destruct (date g); [|by rewrite elem_of_nil].
  case_decide; [|by rewrite elem_of_nil].
  rewrite list_elem_of_singleton. by intros ->.
Qed.

Lemma groups_of_rows : omap group_of (gs ≫= game_rows ρ) = gs ≫= game_groups.
Proof.
  rewrite omap_bind. apply bind_ext_elem. intros g _.
  unfold game_rows, game_groups, group_of. simpl. by destruct (date g).
Qed.

Lemma game_groups_sorted : StronglySorted (strictly group_leb) (gs ≫= game_groups).
Proof.
  apply (StronglySorted_bind _ _ (λ k, k.1.1)); [done|apply game_groups_id|..].
  - intros k k' Hlt. split; [by apply group_leb_lt|]. intros ->. lia.
  - intros g. unfold game_groups. destruct (date g) as [d|]; [|constructor].
    apply SSorted_cons; [apply SSorted_cons; constructor|].
    apply Forall_cons. split; [|constructor]. split; [|congruence].
    unfold group_leb, pivot_index_ltb. simpl.
    repeat case_bool_decide; simpl; done || lia.
Qed.

Lemma sort_groups : sort_unique group_leb (gs ≫= game_groups) = gs ≫= game_groups.
Proof.
  apply sort_unique_eq;
    [apply group_leb_total|apply group_leb_trans|apply group_leb_antisym| |done].
  apply game_groups_sorted.
Qed.

(** Each group holds one row: the game's row under that tag. *)
Lemma rest_of_group g d v :
  g ∈ gs → date g = Some d →
  rest <$> filter (λ r, group_of r = Some (game_id g, d, v)) (gs ≫= game_rows ρ)
  = [ρ (game_id g) v].
Proof.
  intros Hg Hd.
  rewrite (filter_bind_game _ _ (λ r, obs_game_id (obs r)) gs g);
    [|done|done|apply game_rows_id|].
  - unfold game_rows, group_of. destruct v.
    + rewrite filter_cons_True by (simpl; by rewrite Hd).
      rewrite filter_cons_False by (simpl; rewrite Hd; simpl; congruence). done.
    + rewrite filter_cons_False by (simpl; rewrite Hd; simpl; congruence).
      rewrite filter_cons_True by (simpl; by rewrite Hd). done.
  - intros r. unfold group_of. destruct (obs_date (obs r)); simpl; congruence.
Qed.

Lemma groupby_mean_rows : groupby_mean (gs ≫= game_rows ρ) = gs ≫= game_means ρ.
Proof.
  unfold groupby_mean. rewrite groups_of_rows, sort_groups, fmap_bind_list.
  apply bind_ext_elem. intros g Hg. unfold game_groups, game_means.
  destruct (date g) as [d|] eqn:Hd; [|done].
  rewrite !fmap_cons, !rest_of_group, !mean_singleton by done. done.
Qed.

Lemma dropna_groups_bind p :
  dropna_groups p (gs ≫= game_means ρ) = gs ≫= (λ g, dropna_groups p (game_means ρ g)).
Proof. destruct p; [done|]. apply filter_bind. Qed.

Lemma game_means_kept p g e :
  e ∈ dropna_groups p (game_means ρ g) →
  e.1.1.1 = game_id g ∧ date g = Some e.1.1.2 ∧ kept ρ p g.
Proof.
  unfold game_means, kept. destruct (date g) as [d|]; [|destruct p; by rewrite ?elem_of_nil].
  destruct p; simpl.
  - rewrite !elem_of_cons, elem_of_nil. intros [->|[->|[]]]; auto.
  - rewrite list_elem_of_filter, !elem_of_cons, elem_of_nil.
    intros [Hsome [->|[->|[]]]]; simpl in *; apply fmap_is_Some in Hsome; auto.
Qed.

Lemma game_means_of_kept p g d :
  date g = Some d → kept ρ p g →
  ∃ e, e ∈ dropna_groups p (game_means ρ g) ∧ e.1.1 = (game_id g, d).
Proof.
  unfold game_means, kept. intros -> Hkept. destruct p; simpl.
  - eexists. split; [apply list_elem_of_here|reflexivity].
  - destruct Hkept as [?|[Hs|Hs]]; [done|..].
    + exists (game_id g, d, away_team_label, Qc_of_Z <$> ρ (game_id g) away_team_label).
      split; [|reflexivity]. apply list_elem_of_filter.
      split; [|apply list_elem_of_here]. simpl. by apply fmap_is_Some.
    + exists (game_id g, d, home_team_label, Qc_of_Z <$> ρ (game_id g) home_team_label).
      split; [|reflexivity]. apply list_elem_of_filter.
      split; [|apply list_elem_of_further, list_elem_of_here]. simpl.
      by apply fmap_is_Some.
Qed.

Lemma elem_of_game_labels p g i :
  i ∈ game_labels ρ p g ↔ i.1 = game_id g ∧ date g = Some i.2 ∧ kept ρ p g.
Proof.
  unfold game_labels, game_pivot. destruct i as [n d]. simpl.
  destruct (date g) as [d'|].
  - case_decide; simpl.
    + rewrite list_elem_of_singleton. split.
      * by intros [= -> ->].
      * by intros (-> & [= ->] & _).
    + rewrite elem_of_nil. split; [done|]. by intros (_ & _ & ?).
  - simpl. rewrite elem_of_nil. split; [done|]. by intros (_ & ? & _).
Qed.

Lemma pivot_labels p :
  sort_unique pivot_index_leb
    ((λ e, e.1.1) <$> (gs ≫= (λ g, dropna_groups p (game_means ρ g))))
  = gs ≫= game_labels ρ p.
Proof.
  apply sort_unique_eq;
    [apply pivot_index_leb_total|apply pivot_index_leb_trans
    |apply pivot_index_leb_antisym|..].
  - apply (StronglySorted_bind _ _ fst); [done|..].
    + by intros g i (? & _)%elem_of_game_labels.
    + intros i i' Hlt. split; [by apply pivot_index_leb_lt|]. intros ->. lia.
    + intros g. unfold game_labels, game_pivot.
      destruct (date g); [|constructor]. case_decide; repeat constructor.
  - intros i. rewrite fmap_bind_list, !list_elem_of_bind.
    split.
    + intros (g & (Hid & Hd & Hk)%elem_of_game_labels & Hg). exists g. split; [|done].
      destruct (game_means_of_kept p g i.2 Hd Hk) as (e & He & Hei).
      apply list_elem_of_fmap. exists e. split; [|done].
      rewrite Hei, <-Hid. by destruct i.
    + intros (g & (e & -> & He)%list_elem_of_fmap & Hg). exists g. split; [|done].
      apply elem_of_game_labels. by apply game_means_kept in He.
Qed.

Lemma unstacked_game p g d v :
  g ∈ gs → date g = Some d →
  unstacked (gs ≫= (λ g, dropna_groups p (game_means ρ g))) (game_id g, d) v
  = Qc_of_Z <$> ρ (game_id g) v.
Proof.
  intros Hg Hd. unfold unstacked.
  rewrite (filter_bind_game _ _ (λ e, e.1.1.1) gs g); [|done|done|..].
  - unfold game_means. rewrite Hd.
    destruct p, v, (ρ (game_id g) away_team_label), (ρ (game_id g) home_team_label);
      simpl; repeat filter_step; done.
  - intros g' e He. by apply game_means_kept in He as (? & _).
  - by intros e ->.
Qed.

(** The pivot of the long table, game by game. *)
Lemma pivot_table_rows p : pivot_table p (gs ≫= game_rows ρ) = gs ≫= game_pivot ρ p.
Proof.
  unfold pivot_table. rewrite groupby_mean_rows, dropna_groups_bind.
  unfold unstack. rewrite pivot_labels, fmap_bind_list.
  apply bind_ext_elem. intros g Hg. unfold game_labels, game_pivot.
  destruct (date g) as [d|] eqn:Hd; [|done]. case_decide; [|done].
  rewrite !fmap_cons, !fmap_nil. simpl. by rewrite !unstacked_game.
Qed.
End PerGameFacts.

Lemma filter_unique_elem {A} (P : A → Prop) `{∀ x, Decision (P x)} (l : list A) (x : A) :
  NoDup l → x ∈ l → P x → (∀ y, y ∈ l → P y → y = x) → filter P l = [x].
Proof.
  induction 1 as [|y l Hy Hl IH]; intros Hx HPx Huniq; [by apply elem_of_nil in Hx|].
  apply elem_of_cons in Hx as [->|Hx].
  - rewrite filter_cons_True by done. f_equal. apply filter_none.
    intros z Hz HPz. apply Hy. rewrite <-(Huniq z); [done| |done].
    by apply list_elem_of_further.
  - rewrite filter_cons_False.
    + apply IH; [done..|]. intros z Hz. apply Huniq. by apply list_elem_of_further.
    + intros HPy. apply Hy. rewrite (Huniq y); [done| |done]. apply list_elem_of_here.
Qed.

Lemma NoDup_fmap_elem_inj {A B} (f : A → B) (l : list A) x y :
  NoDup (f <$> l) → x ∈ l → y ∈ l → f x = f y → x = y.
Proof.
  intros Hnd Hx Hy Hf.
  apply list_elem_of_lookup in Hx as [i Hi]. apply list_elem_of_lookup in Hy as [j Hj].
  assert (i = j) as ->; [|congruence].
  eapply NoDup_lookup; [done| |]; rewrite list_lookup_fmap.
  - by rewrite Hi.
  - rewrite Hj. simpl. by rewrite Hf.
Qed.

Lemma NoDup_bind_game {B} (f : game → list B) (idb : B → nat) (gs : list game) :
  increasing_ids gs →
  (∀ g b, b ∈ f g → idb b = game_id g) →
  (∀ g, NoDup (f g)) →
  NoDup (gs ≫= f).
Proof.
  intros Hgs Hid Hf. induction Hgs as [|g gs Hgs IH Hg]; [constructor|].
  rewrite bind_cons. apply NoDup_app. split; [done|]. split; [|done].
  intros b Hb (g' & Hb' & Hg')%list_elem_of_bind.
  rewrite Forall_forall in Hg. specialize (Hg _ Hg').
  rewrite <-(Hid _ _ Hb), <-(Hid _ _ Hb') in Hg. lia.
Qed.

Section PerGameJoin.
Variable ρ : nat → variable → option Z.
Variable gs : list game.
Hypothesis Hgs : increasing_ids gs.

Lemma filter_game_index g :
  g ∈ gs → filter (λ g', game_index g' = game_index g) gs = [g].
Proof.
  intros Hg. apply filter_unique_elem; [|done|done|].
  - eapply NoDup_fmap_1, increasing_ids_NoDup, Hgs.
  - intros g' Hg' [= Hid _]. by apply (increasing_ids_inj gs).
Qed.

Lemma game_index_sorted : StronglySorted (strictly index_leb) (game_index <$> gs).
Proof.
  induction Hgs as [|g gs' Hgs' IH Hg]; [constructor|].
  rewrite fmap_cons. constructor; [by apply IH|].
  apply Forall_fmap, Forall_forall. intros g' Hg'.
  rewrite Forall_forall in Hg. specialize (Hg _ Hg'). split.
  - by apply index_leb_lt.
  - intros [= Hid _]. lia.
Qed.

Lemma union_index_pivot p :
  union_index (game_index <$> gs) (by_game_index <$> (gs ≫= game_pivot ρ p))
  = game_index <$> gs.
Proof.
  unfold union_index. case_decide; [done|].
  apply sort_unique_eq;
    [apply index_leb_total|apply index_leb_trans|apply index_leb_antisym|..].
  - apply game_index_sorted.
  - intros i. rewrite elem_of_app. split; [by left|].
    intros [Hi|Hi]; [done|].
    apply list_elem_of_fmap in Hi as (b & -> & Hb).
    apply list_elem_of_bind in Hb as (g & Hb & Hg).
    apply game_pivot_id in Hb as [Hid Hd].
    apply list_elem_of_fmap. exists g. split; [|done].
    unfold by_game_index, game_index. by rewrite Hid, Hd.
Qed.

Lemma by_game_lookup p g :
  g ∈ gs →
  filter (λ b, by_game_index b = game_index g) (gs ≫= game_pivot ρ p) = game_pivot ρ p g.
Proof.
  intros Hg.
  rewrite (filter_bind_game _ _ bg_game_id gs g); [|done|done|..].
  - unfold game_pivot, game_index, by_game_index.
    destruct (date g) as [d|]; [|done]. case_decide; [|done].
    by rewrite filter_cons_True.
  - intros g' b Hb. by apply game_pivot_id in Hb as [? _].
  - by intros b [= ? _].
Qed.

(** The join, game by game: every label of [by_game] is a label of
    [games], so the union of the indexes is the index of [games]. *)
Lemma concat_columns_rows p :
  concat_columns gs (gs ≫= game_pivot ρ p) = game_joined ρ <$> gs.
Proof.
  unfold concat_columns. rewrite union_index_pivot, <-list_fmap_compose.
  apply fmap_ext_elem. intros g Hg. simpl.
  rewrite filter_game_index, by_game_lookup by done. simpl.
  unfold game_joined, game_pivot. destruct (date g) as [d|]; [|done].
  case_decide as Hk; [done|]. simpl.
  destruct (ρ (game_id g) away_team_label) eqn:Ha.
  { exfalso. apply Hk. right. left. by rewrite Ha. }
  destruct (ρ (game_id g) home_team_label) eqn:Hh.
  { exfalso. apply Hk. right. right. by rewrite Hh. }
  done.
Qed.
End PerGameJoin.

(** ** The notebook's tables on a loaded games table *)

Lemma tidy_keys_NoDup gs :
  increasing_ids gs →
  NoDup ((λ o, (obs_game_id o, obs_variable o)) <$> tidy gs).
Proof.
  intros Hgs. rewrite tidy_increasing, fmap_bind_list by done.
  apply (NoDup_bind_game _ fst); [done|..].
  - intros g k. unfold both_observations.
    rewrite !fmap_cons, !elem_of_cons, fmap_nil, elem_of_nil. by intros [->|[->|[]]].
  - intros g. unfold both_observations. rewrite !fmap_cons, fmap_nil. simpl.
    apply NoDup_cons. split; [|apply NoDup_singleton].
    rewrite list_elem_of_singleton. congruence.
Qed.

Lemma assign_rest_obs rows : obs <$> assign_rest rows = rows.
Proof.
  unfold assign_rest. rewrite fmap_zip_with_l; [done|done|].
  by rewrite length_rest_column.
Qed.

Lemma rest_of_row gs r :
  increasing_ids gs → r ∈ assign_rest (tidy gs) →
  rest_of gs (obs_game_id (obs r)) (obs_variable (obs r)) = rest r.
Proof.
  intros Hgs Hr. unfold rest_of.
  assert (NoDup ((λ r, (obs_game_id (obs r), obs_variable (obs r)))
                   <$> assign_rest (tidy gs))) as Hnd.
  { rewrite (list_fmap_compose obs (λ o, (obs_game_id o, obs_variable o))).
    rewrite assign_rest_obs. by apply tidy_keys_NoDup. }
  rewrite (filter_unique_elem _ _ r); [done| |done|done|].
  - by eapply NoDup_fmap_1.
  - intros r' Hr' Hkey.
    eapply (NoDup_fmap_elem_inj _ _ _ _ Hnd); [done..|by simpl].
Qed.

(** The long table with its rest column, game by game. *)
Lemma assign_rest_rows gs :
  increasing_ids gs → assign_rest (tidy gs) = gs ≫= game_rows (rest_of gs).
Proof.
  intros Hgs.
  rewrite <-(list_fmap_id (assign_rest (tidy gs))).
  rewrite (fmap_ext_elem id
             (λ r, TidyRow (obs r) (rest_of gs (obs_game_id (obs r)) (obs_variable (obs r))))).
  - rewrite (list_fmap_compose obs
               (λ o, TidyRow o (rest_of gs (obs_game_id o) (obs_variable o)))).
    rewrite assign_rest_obs, tidy_increasing, fmap_bind_list by done.
    done.
  - intros r Hr. rewrite rest_of_row by done. by destruct r.
Qed.

Lemma by_game_rows p gs :
  increasing_ids gs → by_game p gs = gs ≫= game_pivot (rest_of gs) p.
Proof.
  intros Hgs. unfold by_game. by rewrite assign_rest_rows, pivot_table_rows.
Qed.

Lemma df_rows p gs : increasing_ids gs → df p gs = game_joined (rest_of gs) <$> gs.
Proof.
  intros Hgs. unfold df. by rewrite by_game_rows, concat_columns_rows.
Qed.

Lemma games_columns_joined ρ g : games_columns (game_joined ρ g) = g.
Proof. by destruct g. Qed.

Lemma df_row_of_game p gs g :
  increasing_ids gs → g ∈ gs →
  filter (λ r, df_game_id r = game_id g) (df p gs) = [game_joined (rest_of gs) g].
Proof.
  intros Hgs Hg. rewrite df_rows, <-bind_singletons by done.
  rewrite (filter_bind_game _ _ df_game_id gs g); [|done|done|..].
  - by rewrite filter_cons_True.
  - by intros g' r ->%list_elem_of_singleton.
  - done.
Qed.

(** ** The pivot as a round trip *)

Lemma elem_of_by_game p gs b :
  increasing_ids gs →
  b ∈ by_game p gs ↔
  ∃ g, g ∈ gs ∧ bg_game_id b = game_id g ∧ date g = Some (bg_date b)
       ∧ kept (rest_of gs) p g
       ∧ away_rest b = Qc_of_Z <$> rest_of gs (game_id g) away_team_label
       ∧ home_rest b = Qc_of_Z <$> rest_of gs (game_id g) home_team_label.
Proof.
  intros Hgs. rewrite by_game_rows, list_elem_of_bind by done.
  split.
  - intros (g & Hb & Hg). exists g. split; [done|].
    unfold game_pivot in Hb. destruct (date g) as [d|]; [|by apply elem_of_nil in Hb].
    case_decide; [|by apply elem_of_nil in Hb].
    by apply list_elem_of_singleton in Hb as ->.
  - intros (g & Hg & Hid & Hd & Hk & Ha & Hh). exists g. split; [|done].
    unfold game_pivot. rewrite Hd, decide_True by done.
    apply list_elem_of_singleton. destruct b; simpl in *. congruence.
Qed.

Lemma by_game_ids_NoDup p gs : increasing_ids gs → NoDup (bg_game_id <$> by_game p gs).
Proof.
  intros Hgs. rewrite by_game_rows, fmap_bind_list by done.
  apply (NoDup_bind_game _ id); [done|..].
  - intros g i (b & -> & [Hid _]%game_pivot_id)%list_elem_of_fmap. done.
  - intros g. unfold game_pivot. destruct (date g); [|constructor].
    case_decide; [apply NoDup_singleton|constructor].
Qed.

(** ** A team's first game *)

Lemma StronglySorted_lookup {A} (R : relation A) (l : list A) i j x y :
  StronglySorted R l → l !! i = Some x → l !! j = Some y → (i < j)%nat → R x y.
Proof.
  intros Hl. revert i j. induction Hl as [|z l Hl IH Hz]; intros i j Hi Hj Hij; [done|].
  destruct j as [|j]; [lia|]. destruct i as [|i]; simpl in *.
  - injection Hi as ->. rewrite Forall_forall in Hz.
    by eapply Hz, list_elem_of_lookup_2.
  - apply (IH i j); (done || lia).
Qed.

Lemma tidy_sorted gs : increasing_ids gs → StronglySorted obs_before (tidy gs).
Proof.
  intros Hgs. rewrite tidy_increasing by done.
  apply (StronglySorted_bind _ _ obs_game_id); [done|..].
  - intros g o. unfold both_observations.
    rewrite !elem_of_cons, elem_of_nil. by intros [->|[->|[]]].
  - intros o o' Hlt. by left.
  - intros g. unfold both_observations.
    apply SSorted_cons; [apply SSorted_cons; constructor|].
    apply Forall_cons. split; [|constructor]. by right.
Qed.

Lemma elem_of_tidy gs o :
  increasing_ids gs →
  o ∈ tidy gs ↔ ∃ g, g ∈ gs ∧ (o = away_observation g ∨ o = home_observation g).
Proof.
  intros Hgs. rewrite tidy_increasing, list_elem_of_bind by done.
  unfold both_observations. split.
  - intros (g & Ho & Hg). exists g. split; [done|].
    revert Ho. rewrite !elem_of_cons, elem_of_nil. tauto.
  - intros (g & Hg & Ho). exists g. split; [|done].
    rewrite !elem_of_cons, elem_of_nil. tauto.
Qed.

(** The first row of a team has no rest value. *)
Lemma first_row_rest rows j r t :
  assign_rest rows !! j = Some r → team (obs r) = Some t →
  (∀ k r', (k < j)%nat → assign_rest rows !! k = Some r' → team (obs r') ≠ Some t) →
  rest r = None.
Proof.
  intros [Hj Hrest]%assign_rest_lookup Ht Hfirst.
  unfold rest_column in Hrest. rewrite list_lookup_fmap in Hrest.
  rewrite (groupby_diff_first _ _ j (obs r) t) in Hrest; [|done..|].
  - rewrite lookup_empty in Hrest. simpl in Hrest. congruence.
  - intros k o Hk Ho.
    destruct (lookup_lt_is_Some_2 (rest_column rows) k) as [z Hz].
    { rewrite length_rest_column. by eapply lookup_lt_Some. }
    apply (Hfirst k (TidyRow o z)); [done|]. by apply assign_rest_lookup.
Qed.

Lemma rest_of_observation gs o :
  increasing_ids gs → o ∈ tidy gs →
  ∃ j r, assign_rest (tidy gs) !! j = Some r ∧ obs r = o
         ∧ rest_of gs (obs_game_id o) (obs_variable o) = rest r.
Proof.
  intros Hgs [j Hj]%list_elem_of_lookup.
  destruct (lookup_lt_is_Some_2 (rest_column (tidy gs)) j) as [z Hz].
  { rewrite length_rest_column. by eapply lookup_lt_Some. }
  assert (assign_rest (tidy gs) !! j = Some (TidyRow o z)) as Hr
    by by apply assign_rest_lookup.
  exists j, (TidyRow o z). split; [done|]. split; [done|].
  by rewrite <-(rest_of_row gs (TidyRow o z)) by (done || by eapply list_elem_of_lookup_2).
Qed.

(** In the game where a team plays for the first time, that team's rest
    value is missing. *)
Lemma rest_of_first_game gs g t :
  increasing_ids gs → g ∈ gs →
  away_team g = Some t ∨ home_team g = Some t →
  (∀ g', g' ∈ gs → (game_id g' < game_id g)%nat →
         away_team g' ≠ Some t ∧ home_team g' ≠ Some t) →
  rest_of gs (game_id g) away_team_label = None
  ∨ rest_of gs (game_id g) home_team_label = None.
Proof.
  intros Hgs Hg Ht Hfirst.
  assert (∀ o', o' ∈ tidy gs → (obs_game_id o' < game_id g)%nat → team o' ≠ Some t)
    as Hearlier.
  { intros o' (g' & Hg' & Ho')%elem_of_tidy Hlt; [|done].
    destruct Ho' as [->| ->]; simpl in *; by apply Hfirst. }
  destruct (decide (away_team g = Some t)) as [Ha|Ha].
  - left.
    destruct (rest_of_observation gs (away_observation g)) as (j & r & Hj & Ho & Hrest);
      [done|apply elem_of_tidy; eauto|].
    simpl in Hrest. rewrite Hrest.
    apply (first_row_rest (tidy gs) j r t); [done|by rewrite Ho|].
    intros k r' Hk [Hk' _]%assign_rest_lookup.
    apply assign_rest_lookup in Hj as [Hj _]. rewrite Ho in Hj.
    apply Hearlier; [by eapply list_elem_of_lookup_2|].
    destruct (StronglySorted_lookup _ _ k j _ _ (tidy_sorted gs Hgs) Hk' Hj Hk)
      as [Hlt|(_ & _ & [=])]. done.
  - right. destruct Ht as [Ht|Ht]; [done|].
    destruct (rest_of_observation gs (home_observation g)) as (j & r & Hj & Ho & Hrest);
      [done|apply elem_of_tidy; eauto|].
    simpl in Hrest. rewrite Hrest.
    apply (first_row_rest (tidy gs) j r t); [done|by rewrite Ho|].
    intros k r' Hk [Hk' _]%assign_rest_lookup.
    apply assign_rest_lookup in Hj as [Hj _]. rewrite Ho in Hj.
    assert (obs r' ∈ tidy gs) as Hin by by eapply list_elem_of_lookup_2.
    destruct (StronglySorted_lookup _ _ k j _ _ (tidy_sorted gs Hgs) Hk' Hj Hk)
      as [Hlt|(Hid & Hv & _)]; [by apply Hearlier|].
    apply elem_of_tidy in Hin as (g' & Hg' & Ho'); [|done].
    destruct Ho' as [Ho'|Ho']; rewrite Ho' in *; simpl in *; [|done].
    by rewrite (increasing_ids_inj gs g' g).
Qed.

Lemma elem_of_delta rows e :
  e ∈ delta rows →
  ∃ r, r ∈ rows ∧ e.1 = df_index r
       ∧ is_Some (df_home_rest r) ∧ is_Some (df_away_rest r).
Proof.
  unfold delta. intros (r & Hr & He)%list_elem_of_omap. exists r. split; [done|].
  destruct (df_home_rest r), (df_away_rest r); simplify_eq/=; eauto.
Qed.

(** ** Win statistics *)

Lemma filter_fmap {A B} (P : B → Prop) `{∀ b, Decision (P b)} (f : A → B) (l : list A) :
  filter P (f <$> l) = f <$> filter (λ x, P (f x)) l.
Proof.
  induction l as [|x l IH]; [done|].
  rewrite fmap_cons, !filter_cons. destruct (decide (P (f x))); by rewrite IH.
Qed.

Lemma groupby_win_lookup rows t v :
  groupby_win rows !! (t, v)
  = match win <$> filter (λ r, tg_team r = Some t ∧ home_or_away r = v) rows with
    | [] => None
    | flags => Some flags
    end.
Proof.
  induction rows as [|r rows IH]; [done|].
  change (groupby_win (r :: rows)) with
    (match tg_team r with
     | None => groupby_win rows
     | Some t' =>
         <[(t', home_or_away r) :=
             win r :: default [] (groupby_win rows !! (t', home_or_away r))]>
           (groupby_win rows)
     end).
  destruct (tg_team r) as [t'|] eqn:Ht.
  - destruct (decide ((t', home_or_away r) = (t, v))) as [Heq|Hne].
    + injection Heq as -> <-.
      rewrite lookup_insert_eq, filter_cons_True, IH by (by rewrite Ht).
      rewrite fmap_cons. by destruct (win <$> filter _ rows).
    + rewrite lookup_insert_ne, filter_cons_False, IH; [done| |done].
      intros [? ?]. apply Hne. congruence.
  - rewrite filter_cons_False; [done|]. intros [? ?]. congruence.
Qed.

Lemma sum_flags flags :
  foldr Z.add 0 ((λ b : bool, if b then 1 else 0) <$> flags)
  = Z.of_nat (length (filter (λ b, b = true) flags)).
Proof.
  induction flags as [|[] flags IH]; [done|..].
  - rewrite fmap_cons, filter_cons_True by done. simpl foldr. rewrite IH. simpl length. lia.
  - rewrite fmap_cons, filter_cons_False by done. simpl foldr. by rewrite IH.
Qed.

Lemma mean_nonempty xs vs :
  omap id xs = vs → vs ≠ [] →
  mean xs = Some (Qc_of_Z (foldr Z.add 0%Z vs) / Qc_of_Z (Z.of_nat (length vs)))%Qc.
Proof. intros <- Hne. unfold mean. by destruct (omap id xs). Qed.

Lemma mean_flags flags :
  flags ≠ [] →
  mean (flag <$> flags)
  = Some (Qc_of_Z (Z.of_nat (length (filter (λ b, b = true) flags)))
          / Qc_of_Z (Z.of_nat (length flags)))%Qc.
Proof.
  intros Hne.
  rewrite (mean_nonempty _ ((λ b : bool, if b then 1 else 0) <$> flags)).
  - by rewrite sum_flags, length_fmap.
  - clear Hne. induction flags as [|b flags IH]; [done|].
    rewrite !fmap_cons.
    change (omap id (flag b :: (flag <$> flags)))
      with ((if b then 1 else 0) :: omap id (flag <$> flags)).
    by rewrite IH.
  - by destruct flags.
Qed.

Lemma win_ratio_bounds (w n : nat) :
  (w ≤ n)%nat → (0 < n)%nat →
  (0 ≤ Qc_of_Z (Z.of_nat w) / Qc_of_Z (Z.of_nat n)
   ∧ Qc_of_Z (Z.of_nat w) / Qc_of_Z (Z.of_nat n) ≤ 1)%Qc.
Proof.
  intros Hwn Hn.
  assert (0 < Qc_of_Z (Z.of_nat n))%Qc as Hpos.
  { rewrite <-Z2Qc_inj_0. apply (proj1 (Z2Qc_inj_lt _ _)). lia. }
  assert (0 ≤ Qc_of_Z (Z.of_nat w))%Qc as Hw.
  { rewrite <-Z2Qc_inj_0. apply (proj1 (Z2Qc_inj_le _ _)). lia. }
  unfold Qcdiv. split.
  - apply Qcmult_nonneg_nonneg; [done|]. by apply Qclt_le_weak, Qcinv_pos.
  - apply (Qcmult_le_mono_pos_r _ _ (Qc_of_Z (Z.of_nat n))); [done|].
    rewrite <-Qcmult_assoc, Qcmult_inv_l, Qcmult_1_r, Qcmult_1_l.
    + apply (proj1 (Z2Qc_inj_le _ _)). lia.
    + intros Heq. rewrite Heq in Hpos. by apply Qclt_not_eq in Hpos.
Qed.

Lemma win_home_row i d b t : win (TeamGame i d b home_team_label t) = b.
Proof. by destruct b. Qed.

Lemma win_away_row i d b t : win (TeamGame i d b away_team_label t) = negb b.
Proof. by destruct b. Qed.

(** The 'win' values of one group, read off the games table. *)
Lemma group_flags p gs t v :
  increasing_ids gs →
  win <$> filter (λ r, tg_team r = Some t ∧ home_or_away r = v) (melt_home_win (df p gs))
  = won_in v <$> filter (λ g, team_in v g = Some t) gs.
Proof.
  intros Hgs. unfold melt_home_win. rewrite df_rows, filter_app by done.
  rewrite <-!list_fmap_compose, !filter_fmap. simpl.
  destruct v; simpl.
  - rewrite (filter_none (λ g, home_team g = Some t ∧ home_team_label = away_team_label))
      by (by intros g _ [_ [=]]).
    rewrite fmap_nil, app_nil_l, <-list_fmap_compose.
    rewrite (list_filter_iff _ (λ g, away_team g = Some t)) by (intros g; tauto).
    apply fmap_ext_elem. intros g _. simpl. apply win_away_row.
  - rewrite (filter_none (λ g, away_team g = Some t ∧ away_team_label = home_team_label))
      by (by intros g _ [_ [=]]).
    rewrite fmap_nil, app_nil_r, <-list_fmap_compose.
    rewrite (list_filter_iff _ (λ g, home_team g = Some t)) by (intros g; tauto).
    apply fmap_ext_elem. intros g _. simpl. apply win_home_row.
Qed.

Lemma length_filter_fmap_true {A} (f : A → bool) (l : list A) :
  length (filter (λ b, b = true) (f <$> l)) = length (filter (λ x, f x = true) l).
Proof. by rewrite filter_fmap, length_fmap. Qed.

(** A group of [wins], read off the games table. *)
Lemma wins_lookup p gs t v :
  increasing_ids gs →
  wins (melt_home_win (df p gs)) !! (t, v)
  = if decide (games_played gs t v = 0)%nat then None
    else Some (WinsRow (games_won gs t v) (games_played gs t v)
                 (Some (Qc_of_Z (Z.of_nat (games_won gs t v))
                        / Qc_of_Z (Z.of_nat (games_played gs t v)))%Qc)).
Proof.
  intros Hgs. unfold wins. rewrite lookup_fmap, groupby_win_lookup, group_flags by done.
  unfold games_played, games_won. rewrite <-list_filter_filter.
  rewrite <-(length_filter_fmap_true (won_in v)).
  rewrite <-(length_fmap (won_in v) (filter (λ g, team_in v g = Some t) gs)).
  destruct (won_in v <$> filter (λ g, team_in v g = Some t) gs) as [|b flags] eqn:Hflags.
  - by rewrite decide_True.
  - rewrite decide_False by done. simpl. f_equal. unfold agg_win. f_equal.
    by apply mean_flags.
Qed.

Lemma games_won_le_played gs t v : (games_won gs t v ≤ games_played gs t v)%nat.
Proof.
  unfold games_won, games_played. rewrite <-list_filter_filter. apply length_filter.
Qed.

Lemma elem_of_melt_home_win p gs r :
  increasing_ids gs →
  r ∈ melt_home_win (df p gs) →
  ∃ g, g ∈ gs
       ∧ r = TeamGame (game_id g) (date g) (game_home_win g) (home_or_away r)
                      (team_in (home_or_away r) g).
Proof.
  intros Hgs. unfold melt_home_win. rewrite df_rows, <-!list_fmap_compose by done.
  intros [Hr|Hr]%elem_of_app; apply list_elem_of_fmap in Hr as (g & -> & Hg);
    by exists g.
Qed.

(** ** Team strength *)

Lemma games_played_pos gs g t v :
  g ∈ gs → team_in v g = Some t → (0 < games_played gs t v)%nat.
Proof.
  intros Hg Ht. unfold games_played.
  assert (g ∈ filter (λ g, team_in v g = Some t) gs) as Hin
    by by apply list_elem_of_filter.
  destruct (filter _ gs); [by apply elem_of_nil in Hin|simpl; lia].
Qed.

Lemma win_percent_overall p gs t :
  increasing_ids gs →
  (0 < games_played gs t away_team_label + games_played gs t home_team_label)%nat →
  win_percent (wins (melt_home_win (df p gs))) t = Some (overall_win_percent gs t).
Proof.
  intros Hgs Hpos. unfold win_percent, overall_win_percent.
  rewrite !wins_lookup by done.
  pose proof (games_won_le_played gs t away_team_label).
  pose proof (games_won_le_played gs t home_team_label).
  repeat case_decide; simpl; [lia|..]; repeat f_equal; lia.
Qed.

Lemma strength_row_of_game p gs g :
  increasing_ids gs → g ∈ gs →
  filter (λ r, df_game_id (sr_row r) = game_id g) (strengths p gs)
  = [StrengthRow (game_joined (rest_of gs) g)
       (home_team g ≫= win_percent (wins (melt_home_win (df p gs))))
       (away_team g ≫= win_percent (wins (melt_home_win (df p gs))))].
Proof.
  intros Hgs Hg. unfold strengths, assign_strength.
  rewrite filter_fmap. simpl. rewrite df_row_of_game by done. done.
Qed.

(** ** The date format *)

Section DateFormatFacts.
Import Strptime DateFormat.
Local Open Scope char_scope.

Lemma digit_digit_char n : 0 ≤ n ≤ 9 → digit (digit_char n) = Some n.
Proof.
  intros Hn.
  assert (n = 0 ∨ n = 1 ∨ n = 2 ∨ n = 3 ∨ n = 4 ∨ n = 5 ∨ n = 6 ∨ n = 7 ∨ n = 8 ∨ n = 9)
    as Hcases by lia.
  repeat destruct Hcases as [-> | Hcases]; try subst n; by vm_compute.
Qed.

Lemma is_space_digit_char n : 0 ≤ n ≤ 9 → is_space (digit_char n) = false.
Proof.
  intros Hn.
  assert (n = 0 ∨ n = 1 ∨ n = 2 ∨ n = 3 ∨ n = 4 ∨ n = 5 ∨ n = 6 ∨ n = 7 ∨ n = 8 ∨ n = 9)
    as Hcases by lia.
  repeat destruct Hcases as [-> | Hcases]; try subst n; by vm_compute.
Qed.

Lemma spaces_one c s : is_space c = false → spaces (" " :: c :: s) = Some (c :: s).
Proof.
  intros Hc. change (spaces (" " :: c :: s))
    with (if is_space " " then Some (if is_space c then drop_spaces s else c :: s) else None).
  rewrite Hc. by vm_compute.
Qed.

End DateFormatFacts.

Section ParseFields.
Import Strptime DateFormat.
Local Open Scope char_scope.

Local Opaque name_index is_space digit day_field civil spaces.

(** The pattern read field by field, on a string whose fields are
    separated by single spaces. *)
Lemma parse_fields w1 w2 w3 m1 m2 m3 (mi : nat) d0 D c1 c2 c3 c4 a b c e d :
  is_Some (name_index weekdays w1 w2 w3) →
  name_index months m1 m2 m3 = Some mi →
  is_space m1 = false → is_space d0 = false → is_space c1 = false →
  day_field (d0 :: D ++ [","; " "; c1; c2; c3; c4]) = Some (d, [","; " "; c1; c2; c3; c4]) →
  digit c1 = Some a → digit c2 = Some b → digit c3 = Some c → digit c4 = Some e →
  parse (w1 :: w2 :: w3 :: "," :: " " :: m1 :: m2 :: m3 :: " " :: d0 :: D
           ++ [","; " "; c1; c2; c3; c4])
  = civil (1000 * a + 100 * b + 10 * c + e) (Z.of_nat mi + 1) d.
Proof.
  intros [wi Hw] Hm Hm1 Hd0 Hc1 Hday Ha Hb Hc He.
  cbn. rewrite Hw. cbn. rewrite (spaces_one m1) by done. cbn. rewrite Hm. cbn.
  rewrite (spaces_one d0) by done. cbn. rewrite Hday. cbn.
  rewrite (spaces_one c1) by done. cbn. rewrite Ha, Hb, Hc, He. done.
Qed.

Local Transparent name_index is_space digit day_field civil spaces.

Lemma days_in_month_le y m : days_in_month y m ≤ 31.
Proof. unfold days_in_month. repeat case_bool_decide; destruct (is_leap y); lia. Qed.

Lemma day_field_two a b s :
  day_field (a :: b :: s)
  = match digit a, digit b with
    | Some x, Some y =>
        if bool_decide (1 ≤ 10 * x + y ≤ 31) then Some (10 * x + y, s) else None
    | Some x, None => if bool_decide (1 ≤ x) then Some (x, b :: s) else None
    | None, _ => None
    end.
Proof. done. Qed.

Lemma day_field_day_chars padded d s :
  1 ≤ d ≤ 31 →
  ∃ d0 D, day_chars padded d = d0 :: D ∧ is_space d0 = false
          ∧ day_field (d0 :: D ++ "," :: s) = Some (d, "," :: s).
Proof.
  intros Hd. unfold day_chars.
  destruct (bool_decide (d < 10) && negb padded) eqn:Hshort.
  - apply andb_true_iff in Hshort as [Hlt%bool_decide_eq_true _].
    exists (digit_char d), []. split; [done|].
    split; [apply is_space_digit_char; lia|].
    cbn [app]. rewrite day_field_two, digit_digit_char by lia.
    change (digit ",") with (@None Z). by rewrite bool_decide_eq_true_2 by lia.
  - exists (digit_char (d `div` 10)), [digit_char (d `mod` 10)]. split; [done|].
    assert (0 ≤ d `div` 10 ≤ 9 ∧ 0 ≤ d `mod` 10 ≤ 9 ∧ 10 * (d `div` 10) + d `mod` 10 = d)
      as (Hx & Hy & Hxy) by (Z.div_mod_to_equations; lia).
    split; [by apply is_space_digit_char|].
    cbn [app]. rewrite day_field_two, !digit_digit_char by done.
    rewrite bool_decide_eq_true_2 by lia. by rewrite Hxy.
Qed.

Lemma weekday_chars w :
  w ∈ weekday_names →
  ∃ w1 w2 w3, String.list_ascii_of_string w = [w1; w2; w3]
              ∧ is_Some (name_index weekdays w1 w2 w3).
Proof.
  unfold weekday_names. rewrite !elem_of_cons, elem_of_nil. intros Hw.
  repeat destruct Hw as [-> | Hw]; try done;
    eexists _, _, _; (split; [reflexivity|]); vm_compute; by eexists.
Qed.

Lemma month_chars m :
  1 ≤ m ≤ 12 →
  ∃ m1 m2 m3,
    String.list_ascii_of_string (default EmptyString (month_names !! Z.to_nat (m - 1)))
    = [m1; m2; m3]
    ∧ name_index months m1 m2 m3 = Some (Z.to_nat (m - 1))
    ∧ is_space m1 = false.
Proof.
  intros Hm.
  assert (m = 1 ∨ m = 2 ∨ m = 3 ∨ m = 4 ∨ m = 5 ∨ m = 6 ∨ m = 7 ∨ m = 8 ∨ m = 9
          ∨ m = 10 ∨ m = 11 ∨ m = 12) as Hmonth by lia.
  repeat destruct Hmonth as [-> | Hmonth]; try subst m;
    eexists _, _, _; (split; [reflexivity|]); by vm_compute.
Qed.

(** A date in the format parses to its day of the calendar. *)
Lemma strptime_date_string padded w y m d :
  valid_date w y m d →
  strptime (date_string padded w y m d) = Some (days_from_civil y m d).
Proof.
  intros (Hw & Hm & Hd & Hy & Hrange).
  unfold strptime, date_string. rewrite String.list_ascii_of_string_of_list_ascii.
  unfold date_chars, year_chars.
  pose proof (days_in_month_le y m) as Hle.
  destruct (weekday_chars w Hw) as (w1 & w2 & w3 & -> & Hwi).
  destruct (month_chars m Hm) as (m1 & m2 & m3 & -> & Hmi & Hm1).
  destruct (day_field_day_chars padded d
              [" "; digit_char (y `div` 1000); digit_char ((y `div` 100) `mod` 10);
               digit_char ((y `div` 10) `mod` 10); digit_char (y `mod` 10)])
    as (d0 & D & -> & Hd0 & Hday); [lia|].
  assert (0 ≤ y `div` 1000 ≤ 9 ∧ 0 ≤ (y `div` 100) `mod` 10 ≤ 9
          ∧ 0 ≤ (y `div` 10) `mod` 10 ≤ 9 ∧ 0 ≤ y `mod` 10 ≤ 9
          ∧ 1000 * (y `div` 1000) + 100 * ((y `div` 100) `mod` 10)
            + 10 * ((y `div` 10) `mod` 10) + y `mod` 10 = y)
    as (Ha & Hb & Hc & He & Hyear) by (Z.div_mod_to_equations; lia).
  cbn [app].
  rewrite (parse_fields w1 w2 w3 m1 m2 m3 (Z.to_nat (m - 1)) d0 D _ _ _ _
             (y `div` 1000) ((y `div` 100) `mod` 10) ((y `div` 10) `mod` 10)
             (y `mod` 10) d);
    try done; try (by apply digit_digit_char); try (by apply is_space_digit_char).
  rewrite Hyear. replace (Z.of_nat (Z.to_nat (m - 1)) + 1) with m by lia.
  unfold civil. by rewrite bool_decide_eq_true_2.
Qed.
End ParseFields.

(** ** The count of non-null values *)

Lemma length_filter_flags {A} (l : list (option A)) :
  length (filter is_Some l)
  = length (filter (λ b : bool, b = true) ((λ c, bool_decide (is_Some c)) <$> l)).
Proof.
  induction l as [|[x|] l IH]; [done| |].
  - rewrite fmap_cons, !filter_cons_True; [|done|by eexists]. simpl. by rewrite IH.
  - rewrite fmap_cons, !filter_cons_False; [done|done|by intros [? [=]]].
Qed.

Lemma count_notnull_values r : count_notnull r = non_null_values r.
Proof.
  unfold count_notnull, non_null_values, cell_flags.
  rewrite filter_app, length_app, <- length_filter_flags.
  by destruct (Date r), (Visitor_Neutral r), (PTS r), (Home_Neutral r), (PTS_1 r).
Qed.

(** * The claims *)

(** C1. In the long table, a row of a team that has an earlier row of the
    same team gets as its rest the number of days from the date of the
    latest such row to its own date, minus one; on consecutive days that is
    zero. *)
Theorem rest_is_days_between_minus_one (gs : list game) (i j : nat) (r1 r2 : tidy_row)
    (t : string) (d1 d2 : Z) :
  assign_rest (tidy gs) !! i = Some r1 →
  assign_rest (tidy gs) !! j = Some r2 →
  (i < j)%nat →
  team (obs r1) = Some t → team (obs r2) = Some t →
  (∀ k r, (i < k < j)%nat → assign_rest (tidy gs) !! k = Some r → team (obs r) ≠ Some t) →
  obs_date (obs r1) = Some d1 → obs_date (obs r2) = Some d2 →
  rest r2 = Some (d2 - d1 - 1) ∧ (d2 = d1 + 1 → rest r2 = Some 0).
Proof.
  intros [Hi _]%assign_rest_lookup [Hj Hrest]%assign_rest_lookup Hij Ht1 Ht2 Hbetween Hd1 Hd2.
  assert (rest r2 = Some (d2 - d1 - 1)) as Hr.
  { unfold rest_column in Hrest. rewrite list_lookup_fmap in Hrest.
    rewrite (groupby_diff_previous _ _ i j (obs r1) (obs r2) t) in Hrest; [| done..|].
    - rewrite Hd1, Hd2 in Hrest. simpl in Hrest. congruence.
    - intros k o Hk Ho.
      destruct (lookup_lt_is_Some_2 (rest_column (tidy gs)) k) as [z Hz].
      { rewrite length_rest_column. by eapply lookup_lt_Some. }
      apply (Hbetween k (TidyRow o z)); [done|]. by apply assign_rest_lookup. }
  split; [done|]. intros ->. rewrite Hr. f_equal. lia.
Qed.

Lemma rest_is_days_between_minus_one_season :
  assign_rest (tidy Season.table) !! 1%nat
    = Some (TidyRow (Observation 0 (Some 16735) home_team_label (Some "Atlanta Hawks")) None)
  ∧ rest (TidyRow (Observation 4 (Some 16738) away_team_label (Some "Atlanta Hawks")) (Some 2))
    = Some (16738 - 16735 - 1).
Proof.
  split; [by vm_compute|].
  refine (proj1 (rest_is_days_between_minus_one Season.table 1 6 _ _ "Atlanta Hawks"
                   16735 16738 _ _ _ _ _ _ _ _)); try (by vm_compute); try lia.
  intros k r Hk. assert (k = 2 ∨ k = 3 ∨ k = 4 ∨ k = 5)%nat as [-> | [-> | [-> | ->]]] by lia;
    vm_compute; by intros [= <-].
Defined.

(** C2. For every game of the loaded table, the long table holds exactly two
    rows with the game's game_id and date: the away row, tagged away_team
    with the away team as its team, then the home row, tagged home_team with
    the home team; the long table has twice as many rows as there are
    games. *)
Theorem melt_two_rows_per_game (strptime : string → option Z) (lines : list csv_row)
    (gs : list game) :
  games strptime lines = Some gs →
  (∀ g, g ∈ gs →
     filter (λ r, obs_game_id r = game_id g ∧ obs_date r = date g) (tidy gs)
     = [Observation (game_id g) (date g) away_team_label (away_team g);
        Observation (game_id g) (date g) home_team_label (home_team g)])
  ∧ length (tidy gs) = (2 * length gs)%nat.
Proof.
  intros Hgs%games_increasing. split; [|apply length_tidy].
  intros g Hg.
  transitivity (filter (λ r, obs_index r = game_index g) (tidy gs));
    [|by apply tidy_rows_of_game].
  apply list_filter_iff. intros r. unfold obs_index, game_index. split.
  - by intros [-> ->].
  - by intros [= -> ->].
Qed.

Lemma melt_two_rows_per_game_season :
  games Strptime.strptime Season.lines = Some Season.table
  ∧ length (tidy Season.table) = 8%nat.
Proof.
  assert (games Strptime.strptime Season.lines = Some Season.table) as Hgs
    by (vm_compute; reflexivity).
  split; [exact Hgs|].
  exact (proj2 (melt_two_rows_per_game Strptime.strptime Season.lines Season.table Hgs)).
Defined.

(** C3, as amended. Pivoting the rest values gives at most one row per
    game and only rows of games. A game has a row exactly when its date is
    present and, where [pivot_table] drops the groups whose mean is NaN, at
    least one of its two rest values is present. The row's [away_rest] and
    [home_rest] are the rest values the long table holds for the game's
    away and home rows ([rest_of], which reads exactly those rows). *)
Theorem by_game_round_trip (p : nan_groups) (strptime : string → option Z)
    (lines : list csv_row) (gs : list game) :
  games strptime lines = Some gs →
  NoDup (bg_game_id <$> by_game p gs)
  ∧ (∀ b, b ∈ by_game p gs ↔
       ∃ g, g ∈ gs ∧ bg_game_id b = game_id g ∧ date g = Some (bg_date b)
            ∧ (p = keep_nan_groups
               ∨ is_Some (rest_of gs (game_id g) away_team_label)
               ∨ is_Some (rest_of gs (game_id g) home_team_label))
            ∧ away_rest b = Qc_of_Z <$> rest_of gs (game_id g) away_team_label
            ∧ home_rest b = Qc_of_Z <$> rest_of gs (game_id g) home_team_label)
  ∧ (∀ r, r ∈ assign_rest (tidy gs) →
       rest_of gs (obs_game_id (obs r)) (obs_variable (obs r)) = rest r).
Proof.
  intros Hgs%games_increasing. split; [by apply by_game_ids_NoDup|]. split.
  - intros b. by apply elem_of_by_game.
  - intros r Hr. by apply rest_of_row.
Qed.

Lemma by_game_round_trip_season :
  games Strptime.strptime Season.lines = Some Season.table
  ∧ NoDup (bg_game_id <$> by_game keep_nan_groups Season.table).
Proof.
  assert (games Strptime.strptime Season.lines = Some Season.table) as Hgs
    by (vm_compute; reflexivity).
  split; [exact Hgs|].
  exact (proj1 (by_game_round_trip keep_nan_groups Strptime.strptime Season.lines
                  Season.table Hgs)).
Defined.

(** C3 as stated fails: a line with an empty date cell is loaded as a game
    (it has four other cells), yet the pivot, which groups by date, has no
    row for it; and where [pivot_table] drops NaN groups, the two opening
    games of the fully dated season, in which both teams play for the first
    time, have no row either. *)
Lemma by_game_misses_games :
  (∃ gs, games Strptime.strptime Season.lines_undated = Some gs
         ∧ length gs = 5%nat
         ∧ length (by_game keep_nan_groups gs) = 4%nat
         ∧ length (by_game drop_nan_groups gs) = 2%nat)
  ∧ games Strptime.strptime Season.lines = Some Season.table
  ∧ length Season.table = 4%nat
  ∧ bg_game_id <$> by_game drop_nan_groups Season.table = [2%nat; 4%nat].
Proof.
  split.
  - exists (Season.table
            ++ [Game 5 None (Some "Detroit Pistons") (Some 90) (Some "Chicago Bulls") (Some 99)]).
    by vm_compute.
  - by vm_compute.
Qed.

(** C4. On a loaded games table, the one row of each game in the final
    table has as [home_strength] the home team's overall win percent and as
    [away_strength] the away team's: the team's wins divided by its games,
    those at home and those away added up (a missing team gets a missing
    strength). *)
Theorem strength_is_overall_win_percent (p : nan_groups) (strptime : string → option Z)
    (lines : list csv_row) (gs : list game) (g : game) :
  games strptime lines = Some gs →
  g ∈ gs →
  ∃ r, filter (λ r, df_game_id (sr_row r) = game_id g) (strengths p gs) = [r]
       ∧ home_strength r
         = (t ← home_team g;
            Some (Qc_of_Z (Z.of_nat (games_won gs t away_team_label
                                     + games_won gs t home_team_label))
                  / Qc_of_Z (Z.of_nat (games_played gs t away_team_label
                                       + games_played gs t home_team_label)))%Qc)
       ∧ away_strength r
         = (t ← away_team g;
            Some (Qc_of_Z (Z.of_nat (games_won gs t away_team_label
                                     + games_won gs t home_team_label))
                  / Qc_of_Z (Z.of_nat (games_played gs t away_team_label
                                       + games_played gs t home_team_label)))%Qc).
Proof.
  intros Hgs%games_increasing Hg. eexists. split; [by apply strength_row_of_game|].
  simpl. split.
  - destruct (home_team g) as [t|] eqn:Ht; [|done]. simpl.
    rewrite win_percent_overall; [done|done|].
    pose proof (games_played_pos gs g t home_team_label Hg Ht). lia.
  - destruct (away_team g) as [t|] eqn:Ht; [|done]. simpl.
    rewrite win_percent_overall; [done|done|].
    pose proof (games_played_pos gs g t away_team_label Hg Ht). lia.
Qed.

Lemma strength_is_overall_win_percent_season :
  games Strptime.strptime Season.lines = Some Season.table
  ∧ ∃ r, filter (λ r, df_game_id (sr_row r) = 2%nat) (strengths keep_nan_groups Season.table)
         = [r]
         ∧ home_strength r = Some (overall_win_percent Season.table "Detroit Pistons").
Proof.
  assert (games Strptime.strptime Season.lines = Some Season.table) as Hgs
    by (vm_compute; reflexivity).
  split; [exact Hgs|].
  destruct (strength_is_overall_win_percent keep_nan_groups Strptime.strptime Season.lines
              Season.table
              (Game 2 (Some 16736) (Some "Chicago Bulls") (Some 115)
                    (Some "Detroit Pistons") (Some 100)) Hgs)
    as (r & Hr & Hh & _).
  { apply list_elem_of_further, list_elem_of_further, list_elem_of_here. }
  by exists r.
Defined.

(** C5. Every game of the loaded table has one row in [df], and the
    [home_win] of that row is true exactly when both scores are present and
    the home team's points are strictly greater than the away team's. *)
Theorem home_win_iff_more_points (p : nan_groups) (strptime : string → option Z)
    (lines : list csv_row) (gs : list game) :
  games strptime lines = Some gs →
  ∀ g, g ∈ gs →
    ∃ r, filter (λ r, df_game_id r = game_id g) (df p gs) = [r]
         ∧ (home_win r = true ↔
            ∃ h a, home_points g = Some h ∧ away_points g = Some a ∧ a < h).
Proof.
  intros Hgs%games_increasing g Hg. exists (game_joined (rest_of gs) g).
  split; [by apply df_row_of_game|].
  unfold home_win. simpl. destruct (home_points g) as [h|], (away_points g) as [a|].
  - rewrite bool_decide_eq_true. split.
    + intros Hlt. by exists h, a.
    + by intros (h' & a' & [= <-] & [= <-] & Hlt).
  - split; [done|]. by intros (h' & a' & _ & [=] & _).
  - split; [done|]. by intros (h' & a' & [=] & _).
  - split; [done|]. by intros (h' & a' & [=] & _).
Qed.

Lemma home_win_iff_more_points_season :
  games Strptime.strptime Season.lines = Some Season.table
  ∧ ∃ r, filter (λ r, df_game_id r = 1%nat) (df keep_nan_groups Season.table) = [r]
         ∧ (home_win r = true ↔ ∃ h a, Some 97 = Some h ∧ Some 95 = Some a ∧ a < h).
Proof.
  assert (games Strptime.strptime Season.lines = Some Season.table) as Hgs
    by (vm_compute; reflexivity).
  split; [exact Hgs|].
  refine (home_win_iff_more_points keep_nan_groups Strptime.strptime Season.lines
            Season.table Hgs
            (Game 1 (Some 16735) (Some "Cleveland Cavaliers") (Some 95)
                  (Some "Chicago Bulls") (Some 97)) _).
  apply list_elem_of_further, list_elem_of_here.
Defined.

(** C6. In the second long table, built from a loaded games table, the
    [win] of a row is true exactly when [home_win] is true and the row is
    tagged home_team, or [home_win] is false and the row is tagged
    away_team. Every row belongs to a game, carries that game's [home_win]
    and the team the game has under the row's tag; when the two scores are
    present and differ, [win] is true exactly for the row of the team that
    scored more. *)
Theorem win_marks_the_winner (p : nan_groups) (strptime : string → option Z)
    (lines : list csv_row) (gs : list game) (r : team_game) :
  games strptime lines = Some gs →
  r ∈ melt_home_win (df p gs) →
  (win r = true ↔
     (tg_home_win r = true ∧ home_or_away r = home_team_label)
     ∨ (tg_home_win r = false ∧ home_or_away r = away_team_label))
  ∧ ∃ g, g ∈ gs ∧ tg_game_id r = game_id g
         ∧ tg_team r = team_in (home_or_away r) g
         ∧ (tg_home_win r = true ↔
              ∃ h a, home_points g = Some h ∧ away_points g = Some a ∧ a < h)
         ∧ ∀ h a, home_points g = Some h → away_points g = Some a → h ≠ a →
             (win r = true ↔
                (home_or_away r = home_team_label ∧ a < h)
                ∨ (home_or_away r = away_team_label ∧ h < a)).
Proof.
  intros Hgs%games_increasing Hr. split.
  { unfold win. destruct (tg_home_win r), (home_or_away r); simpl;
      rewrite ?bool_decide_eq_true_2, ?bool_decide_eq_false_2 by done;
      intuition congruence. }
  destruct (elem_of_melt_home_win p gs r Hgs Hr) as (g & Hg & Heq).
  exists g. split; [done|]. rewrite Heq. simpl. split; [done|]. split; [done|].
  unfold win, game_home_win. simpl. split.
  - destruct (home_points g) as [h|], (away_points g) as [a|].
    + rewrite bool_decide_eq_true. split.
      * intros Hlt. by exists h, a.
      * by intros (h' & a' & [= <-] & [= <-] & Hlt).
    + split; [done|]. by intros (h' & a' & _ & [=] & _).
    + split; [done|]. by intros (h' & a' & [=] & _).
    + split; [done|]. by intros (h' & a' & [=] & _).
  - intros h a -> -> Hne. destruct (home_or_away r); simpl;
      case_bool_decide; simpl; intuition (try done; try congruence; try lia).
Qed.

Lemma win_marks_the_winner_season :
  games Strptime.strptime Season.lines = Some Season.table
  ∧ (win (TeamGame 1 (Some 16735) true home_team_label (Some "Chicago Bulls")) = true ↔
       (true = true ∧ home_team_label = home_team_label)
       ∨ (true = false ∧ home_team_label = away_team_label)).
Proof.
  assert (games Strptime.strptime Season.lines = Some Season.table) as Hgs
    by (vm_compute; reflexivity).
  split; [exact Hgs|].
  refine (proj1 (win_marks_the_winner keep_nan_groups Strptime.strptime Season.lines
                   Season.table
                   (TeamGame 1 (Some 16735) true home_team_label (Some "Chicago Bulls"))
                   Hgs _)).
  apply list_elem_of_lookup. exists 1%nat. by vm_compute.
Defined.

(** C7. On a loaded games table, [wins] has a group for a team and a
    home/away tag exactly when the team played a game under that tag. For
    every group, [n_wins] is the number of games the team won under the tag,
    [n_games] the number of games it played under it, and [win_pct] is
    [n_wins] divided by [n_games]; so [n_wins] is at most [n_games] and
    [win_pct] lies between 0 and 1. *)
Theorem wins_by_team_and_tag (p : nan_groups) (strptime : string → option Z)
    (lines : list csv_row) (gs : list game) (t : string) (v : variable) :
  games strptime lines = Some gs →
  match wins (melt_home_win (df p gs)) !! (t, v) with
  | None => games_played gs t v = 0%nat
  | Some s =>
      n_wins s = games_won gs t v
      ∧ n_games s = games_played gs t v
      ∧ (0 < n_games s)%nat
      ∧ (n_wins s ≤ n_games s)%nat
      ∧ ∃ q, win_pct s = Some q
             ∧ q = (Qc_of_Z (Z.of_nat (n_wins s)) / Qc_of_Z (Z.of_nat (n_games s)))%Qc
             ∧ (0 ≤ q)%Qc ∧ (q ≤ 1)%Qc
  end.
Proof.
  intros Hgs%games_increasing. rewrite wins_lookup by done.
  case_decide as Hplayed; [done|]. simpl.
  pose proof (games_won_le_played gs t v) as Hle.
  split; [done|]. split; [done|]. split; [lia|]. split; [done|].
  eexists. split; [done|]. split; [done|]. apply win_ratio_bounds; lia.
Qed.

Lemma wins_by_team_and_tag_season :
  games Strptime.strptime Season.lines = Some Season.table
  ∧ ∃ s, wins (melt_home_win (df keep_nan_groups Season.table))
           !! ("Chicago Bulls"%string, home_team_label) = Some s
         ∧ n_wins s = 1%nat ∧ n_games s = 1%nat.
Proof.
  assert (games Strptime.strptime Season.lines = Some Season.table) as Hgs
    by (vm_compute; reflexivity).
  split; [exact Hgs|].
  pose proof (wins_by_team_and_tag keep_nan_groups Strptime.strptime Season.lines
                Season.table "Chicago Bulls" home_team_label Hgs) as Hw.
  destruct (wins (melt_home_win (df keep_nan_groups Season.table))
              !! ("Chicago Bulls"%string, home_team_label)) as [s|].
  - exists s. destruct Hw as (-> & -> & _). by vm_compute.
  - by vm_compute in Hw.
Defined.

(** C8. Joining [by_game] onto the loaded games table leaves the games as
    they were: read back through its original columns, [df] is the games
    table itself, row for row, so every game keeps its index, teams and
    points and no row is added or removed. *)
Theorem concat_keeps_games (p : nan_groups) (strptime : string → option Z)
    (lines : list csv_row) (gs : list game) :
  games strptime lines = Some gs →
  games_columns <$> df p gs = gs.
Proof.
  intros Hgs%games_increasing. rewrite df_rows, <-list_fmap_compose by done.
  transitivity (id <$> gs); [|apply list_fmap_id].
  apply fmap_ext_elem. intros g _. apply games_columns_joined.
Qed.

Lemma concat_keeps_games_season :
  games Strptime.strptime Season.lines = Some Season.table
  ∧ games_columns <$> df keep_nan_groups Season.table = Season.table.
Proof.
  assert (games Strptime.strptime Season.lines = Some Season.table) as Hgs
    by (vm_compute; reflexivity).
  split; [exact Hgs|].
  exact (concat_keeps_games keep_nan_groups Strptime.strptime Season.lines Season.table Hgs).
Defined.

(** C9. The loader, with the parser of the format '%a, %b %d, %Y', returns
    a table whenever the date cell of every line with at least 4 non-null
    values parses. Its rows are exactly those lines, each under its line
    number as [game_id], with the date cell parsed (an empty cell gives no
    date) and the four team and points cells under their new names; a date
    cell written like 'Tue, Oct 27, 2015' gives that day of the calendar;
    the labels increase down the table, so it is sorted by its
    (game_id, date) index. *)
Theorem games_loader (lines : list csv_row) :
  (∀ i r s, lines !! i = Some r → (4 ≤ non_null_values r)%nat → Date r = Some s →
            is_Some (Strptime.strptime s)) →
  ∃ gs, games Strptime.strptime lines = Some gs
    ∧ (∀ g, g ∈ gs ↔
         ∃ r, lines !! game_id g = Some r ∧ (4 ≤ non_null_values r)%nat
              ∧ date g = Date r ≫= Strptime.strptime
              ∧ away_team g = Visitor_Neutral r ∧ away_points g = PTS r
              ∧ home_team g = Home_Neutral r ∧ home_points g = PTS_1 r)
    ∧ (∀ g r padded w y m d,
         g ∈ gs → lines !! game_id g = Some r →
         DateFormat.valid_date w y m d →
         Date r = Some (DateFormat.date_string padded w y m d) →
         date g = Some (Strptime.days_from_civil y m d))
    ∧ increasing_ids gs
    ∧ Sorted (λ a b, index_leb (game_index a) (game_index b) = true) gs.
Proof.
  intros Hparse.
  destruct (proj2 (games_is_Some Strptime.strptime lines)) as [gs Hgs].
  { apply Forall_lookup. intros i r Hi Hfour. rewrite count_notnull_values in Hfour.
    destruct (Date r) as [s|] eqn:Hdate; [|by eexists].
    destruct (Hparse i r s Hi Hfour Hdate) as [d Hd]. simpl. rewrite Hd. by eexists. }
  assert (∀ g, g ∈ gs ↔
            ∃ r, lines !! game_id g = Some r ∧ (4 ≤ non_null_values r)%nat
                 ∧ date g = Date r ≫= Strptime.strptime
                 ∧ away_team g = Visitor_Neutral r ∧ away_points g = PTS r
                 ∧ home_team g = Home_Neutral r ∧ home_points g = PTS_1 r) as Hmem.
  { intros g. rewrite (elem_of_games Strptime.strptime lines gs g Hgs). split.
    - intros (r & Hr & Hfour & Hdate & Hcols). exists r. split; [done|].
      rewrite <- count_notnull_values. split; [done|]. split; [|done].
      destruct (Date r) as [s|]; simpl in *; [|congruence].
      destruct (Strptime.strptime s); simpl in *; congruence.
    - intros (r & Hr & Hfour & Hdate & Hcols). exists r. split; [done|].
      rewrite count_notnull_values. split; [done|]. split; [|done].
      destruct (Date r) as [s|] eqn:Hcell; simpl in *; [|congruence].
      destruct (Hparse _ r s Hr Hfour Hcell) as [d Hd]. rewrite Hd in *. simpl. congruence. }
  exists gs. split; [done|]. split; [done|]. split; [|split].
  - intros g r padded w y m d Hg Hr Hvalid Hcell.
    apply Hmem in Hg as (r' & Hr' & _ & Hdate & _). simplify_eq.
    rewrite Hdate, Hcell. simpl. by apply strptime_date_string.
  - by eapply games_increasing.
  - by eapply increasing_ids_Sorted, games_increasing.
Qed.

Lemma games_loader_season :
  (∀ i r s, Season.lines !! i = Some r → (4 ≤ non_null_values r)%nat → Date r = Some s →
            is_Some (Strptime.strptime s))
  ∧ DateFormat.date_string false "Tue" 2015 10 27 = "Tue, Oct 27, 2015"%string
  ∧ ∃ gs, games Strptime.strptime Season.lines = Some gs
      ∧ gs = Season.table
      ∧ ∀ g, g ∈ gs → game_id g = 0%nat →
             date g = Some (Strptime.days_from_civil 2015 10 27).
Proof.
  assert (∀ i r s, Season.lines !! i = Some r → (4 ≤ non_null_values r)%nat →
                   Date r = Some s → is_Some (Strptime.strptime s)) as Hparse.
  { intros i r s Hi.
    repeat (destruct i as [|i];
            [injection Hi as <-; intros Hfour [= <-];
             first [vm_compute; by eexists | vm_compute in Hfour; lia]|]).
    done. }
  split; [exact Hparse|]. split; [reflexivity|].
  destruct (games_loader Season.lines Hparse) as (gs & Hgs & _ & Hformat & _).
  exists gs. split; [exact Hgs|].
  assert (games Strptime.strptime Season.lines = Some Season.table) as Htable
    by (vm_compute; reflexivity).
  split; [congruence|].
  intros g Hg Hid.
  apply (Hformat g (Season.line "Tue, Oct 27, 2015" "Detroit Pistons" 106
                                "Atlanta Hawks" 94) false "Tue" 2015 10 27 Hg).
  - by rewrite Hid.
  - repeat split; try lia; try (vm_compute; discriminate).
    apply list_elem_of_further, list_elem_of_here.
  - reflexivity.
Defined.

(** C10. The first row of a team in the long table has no rest value:
    it is missing, not zero. So, on a loaded games table, a game in which
    some team plays for the first time has its one row in [df] with
    [away_rest] or [home_rest] missing, is absent from [delta], and is
    absent from the rows the regression is fitted on, whatever the
    strengths are. *)
Theorem first_game_has_no_rest (p : nan_groups) (strptime : string → option Z)
    (lines : list csv_row) (gs : list game) (percent : string → option Qc) :
  games strptime lines = Some gs →
  (∀ j r t, assign_rest (tidy gs) !! j = Some r → team (obs r) = Some t →
     (∀ k r', (k < j)%nat → assign_rest (tidy gs) !! k = Some r' → team (obs r') ≠ Some t) →
     rest r = None ∧ rest r ≠ Some 0)
  ∧ (∀ g t, g ∈ gs →
       away_team g = Some t ∨ home_team g = Some t →
       (∀ g', g' ∈ gs → (game_id g' < game_id g)%nat →
              away_team g' ≠ Some t ∧ home_team g' ≠ Some t) →
       (∃ r, filter (λ r, df_game_id r = game_id g) (df p gs) = [r]
             ∧ (df_away_rest r = None ∨ df_home_rest r = None))
       ∧ (∀ e, e ∈ delta (df p gs) → e.1.1 ≠ game_id g)
       ∧ (∀ r, r ∈ logit_rows (assign_strength percent (df p gs)) →
               df_game_id (sr_row r) ≠ game_id g)).
Proof.
  intros Hgs%games_increasing. split.
  { intros j r t Hj Ht Hfirst. rewrite (first_row_rest _ j r t) by done. done. }
  intros g t Hg Ht Hfirst.
  pose proof (rest_of_first_game gs g t Hgs Hg Ht Hfirst) as Hnone.
  assert (df_away_rest (game_joined (rest_of gs) g) = None
          ∨ df_home_rest (game_joined (rest_of gs) g) = None) as Hrow.
  { simpl. destruct Hnone as [-> | ->]; [left|right]; by destruct (date g). }
  assert (∀ r, r ∈ df p gs → df_game_id r = game_id g →
               ¬ (is_Some (df_home_rest r) ∧ is_Some (df_away_rest r))) as Hout.
  { intros r Hr Hid [Hh Ha].
    assert (r ∈ filter (λ r, df_game_id r = game_id g) (df p gs)) as Hin
      by by apply list_elem_of_filter.
    rewrite df_row_of_game in Hin by done. apply list_elem_of_singleton in Hin as ->.
    destruct Hrow as [Hrow|Hrow]; rewrite Hrow in *; by eapply is_Some_None. }
  split; [|split].
  - exists (game_joined (rest_of gs) g). split; [by apply df_row_of_game|done].
  - intros e (r & Hr & He & Hh & Ha)%elem_of_delta Hid.
    apply (Hout r); [done| |done]. by rewrite He in Hid.
  - intros r [(_ & _ & Hh & Ha) Hr]%list_elem_of_filter Hid.
    apply list_elem_of_fmap in Hr as (r0 & -> & Hr0). simpl in *.
    by apply (Hout r0).
Qed.

Lemma first_game_has_no_rest_season :
  games Strptime.strptime Season.lines = Some Season.table
  ∧ ∀ e, e ∈ delta (df keep_nan_groups Season.table) → e.1.1 ≠ 0%nat.
Proof.
  assert (games Strptime.strptime Season.lines = Some Season.table) as Hgs
    by (vm_compute; reflexivity).
  split; [exact Hgs|].
  refine (proj1 (proj2 (proj2 (first_game_has_no_rest keep_nan_groups Strptime.strptime
            Season.lines Season.table (λ _, None) Hgs)
            (Game 0 (Some 16735) (Some "Detroit Pistons") (Some 106)
                  (Some "Atlanta Hawks") (Some 94))
            "Detroit Pistons" _ _ _))).
  - apply list_elem_of_here.
  - by left.
  - intros g' _ Hlt. simpl in Hlt. lia.
Defined.

(** * Further properties *)

(** ** The loader's failure *)

(** X1. The loader fails exactly when some line with at least 4 non-null
    cells has a date cell that does not parse. A line with fewer cells is
    dropped before its date is read, so what it holds there never matters. *)
Theorem games_fails_on_unparsed_date (strptime : string → option Z)
    (lines : list csv_row) :
  games strptime lines = None ↔
  ∃ i r s, lines !! i = Some r ∧ (4 ≤ count_notnull r)%nat
           ∧ Date r = Some s ∧ strptime s = None.
Proof.
  rewrite eq_None_not_Some, games_is_Some. split.
  - intros Hnot. apply not_Forall_Exists in Hnot; [|apply _].
    apply Exists_exists in Hnot as (r & Hr & Hbad). simpl in Hbad.
    apply list_elem_of_lookup in Hr as [i Hi].
    destruct (decide (4 ≤ count_notnull r)%nat) as [Hfour|Hfour]; [|by destruct Hbad].
    destruct (Date r) as [s|] eqn:Hdate.
    + exists i, r, s. repeat split; try done.
      destruct (strptime s) as [d|] eqn:Hs; [|done].
      destruct Hbad. intros _. simpl. rewrite Hs. by eexists.
    + destruct Hbad. intros _. by eexists.
  - intros (i & r & s & Hi & Hfour & Hdate & Hs) Hall.
    rewrite Forall_lookup in Hall. specialize (Hall i r Hi Hfour).
    rewrite Hdate in Hall. simpl in Hall. rewrite Hs in Hall. by destruct Hall.
Qed.

(** ** Rest values and teams *)

Lemma groupby_diff_no_team seen rows j r :
  rows !! j = Some r → team r = None → groupby_diff seen rows !! j = Some None.
Proof.
  revert seen j. induction rows as [|r0 rows IH]; intros seen j Hj Ht; [done|].
  destruct j as [|j]; simpl in *.
  - injection Hj as ->. by rewrite Ht.
  - destruct (team r0); simpl; by apply IH.
Qed.

Lemma rest_needs_team rows j r :
  assign_rest rows !! j = Some r → is_Some (rest r) → is_Some (team (obs r)).
Proof.
  intros [Hrow Hrest]%assign_rest_lookup Hsome.
  destruct (team (obs r)) as [t|] eqn:Ht; [by eexists|].
  unfold rest_column in Hrest. rewrite list_lookup_fmap in Hrest.
  rewrite (groupby_diff_no_team _ _ _ _ Hrow Ht) in Hrest. simpl in Hrest.
  injection Hrest as Hrest. rewrite <- Hrest in Hsome. by destruct Hsome.
Qed.

(** ** The rest differences *)

Lemma Qc_trunc_of_Z z : Qc_trunc (Qc_of_Z z) = z.
Proof. unfold Qc_trunc. simpl. apply Z.quot_1_r. Qed.

Lemma Qc_trunc_sub a b : Qc_trunc (Qc_of_Z a - Qc_of_Z b) = a - b.
Proof. by rewrite <- Z2Qc_inj_sub, Qc_trunc_of_Z. Qed.

Lemma bind_omap {A B} (F : A → list B) (G : A → option B) (l : list A) :
  (∀ x, x ∈ l → F x = option_list (G x)) → l ≫= F = omap G l.
Proof.
  induction l as [|x l IH]; intros Hl; [done|].
  rewrite bind_cons, (Hl x) by by left.
  rewrite IH by (intros y Hy; apply Hl; by right).
  simpl. by destruct (G x).
Qed.

Lemma filter_ext_elem {A} (P Q : A → Prop) `{∀ x, Decision (P x)} `{∀ x, Decision (Q x)}
    (l : list A) :
  (∀ x, x ∈ l → P x ↔ Q x) → filter P l = filter Q l.
Proof.
  induction l as [|x l IH]; intros Hl; [done|].
  rewrite !filter_cons. destruct (Hl x) as [HPQ HQP]; [by left|].
  rewrite IH by (intros y Hy; apply Hl; by right).
  destruct (decide (P x)), (decide (Q x)); tauto.
Qed.

(** The entry of [delta] a game gives, if any. *)
Lemma delta_rows ρ gs :
  delta (game_joined ρ <$> gs)
  = omap (λ g, _ ← date g; h ← ρ (game_id g) home_team_label;
               a ← ρ (game_id g) away_team_label; Some (game_index g, h - a)) gs.
Proof.
  unfold delta. apply list_omap_ext, Forall2_fmap_l, Forall_Forall2_diag, Forall_forall.
  intros g _. unfold game_joined, df_index, game_index. simpl. destruct (date g); simpl; [|done].
  destruct (ρ (game_id g) home_team_label), (ρ (game_id g) away_team_label); simpl;
    by rewrite ?Qc_trunc_sub.
Qed.

(** X2. When both rest columns hold a value somewhere, so that [df] has
    both and the subtraction does not raise, [delta] has one entry for
    each game of the loaded table that has a date and both rest values, in
    the order of the games and under the game's index label; the entry is
    the home team's rest minus the away team's, the exact integer. *)
Theorem delta_is_rest_difference (p : nan_groups) (strptime : string → option Z)
    (lines : list csv_row) (gs : list game) :
  games strptime lines = Some gs →
  rest_columns_exist (df p gs) →
  delta (df p gs)
  = omap (λ g, _ ← date g;
               h ← rest_of gs (game_id g) home_team_label;
               a ← rest_of gs (game_id g) away_team_label;
               Some (game_index g, h - a)) gs.
Proof. intros Hgs%games_increasing _. by rewrite df_rows, delta_rows. Qed.

Lemma has_column_elem p col bs b :
  b ∈ bs → is_Some (col b) → has_column p col bs.
Proof.
  intros Hb Hsome. destruct p; simpl.
  - intros ->. by apply elem_of_nil in Hb.
  - apply Exists_exists. by exists b.
Qed.

(** A value in a rest column of [df] is a value in that column of
    [by_game]. *)
Lemma by_game_has_columns p gs :
  increasing_ids gs → rest_columns_exist (df p gs) →
  has_column p away_rest (by_game p gs) ∧ has_column p home_rest (by_game p gs).
Proof.
  intros Hgs [Hhome Haway]. rewrite df_rows in Hhome, Haway by done.
  rewrite by_game_rows by done.
  assert (∀ g, g ∈ gs → is_Some (date g) →
            is_Some (rest_of gs (game_id g) away_team_label)
            ∨ is_Some (rest_of gs (game_id g) home_team_label) →
            ∃ b, b ∈ gs ≫= game_pivot (rest_of gs) p
                 ∧ away_rest b = Qc_of_Z <$> rest_of gs (game_id g) away_team_label
                 ∧ home_rest b = Qc_of_Z <$> rest_of gs (game_id g) home_team_label)
    as Hrow.
  { intros g Hg [d Hd] Hsome.
    exists (ByGame (game_id g) d (Qc_of_Z <$> rest_of gs (game_id g) away_team_label)
                   (Qc_of_Z <$> rest_of gs (game_id g) home_team_label)).
    split; [|done]. apply list_elem_of_bind. exists g. split; [|done].
    unfold game_pivot. rewrite Hd, decide_True by (by right). by left. }
  split.
  - apply Exists_exists in Haway as (r & (g & -> & Hg)%list_elem_of_fmap & Hsome).
    unfold game_joined in Hsome. simpl in Hsome.
    destruct (date g) as [d|] eqn:Hd; simpl in Hsome; [|by destruct Hsome].
    destruct (rest_of gs (game_id g) away_team_label) as [a|] eqn:Ha;
      [|by destruct Hsome].
    destruct (Hrow g Hg) as (b & Hb & Hba & _); [by eexists|left; by eexists|].
    apply (has_column_elem _ _ _ b Hb). rewrite Hba, Ha. by eexists.
  - apply Exists_exists in Hhome as (r & (g & -> & Hg)%list_elem_of_fmap & Hsome).
    unfold game_joined in Hsome. simpl in Hsome.
    destruct (date g) as [d|] eqn:Hd; simpl in Hsome; [|by destruct Hsome].
    destruct (rest_of gs (game_id g) home_team_label) as [h|] eqn:Hh;
      [|by destruct Hsome].
    destruct (Hrow g Hg) as (b & Hb & _ & Hbh); [by eexists|right; by eexists|].
    apply (has_column_elem _ _ _ b Hb). rewrite Hbh, Hh. by eexists.
Qed.

Lemma complete_rows_game ρ p g :
  by_game_index
    <$> filter (λ b, is_Some (away_rest b) ∧ is_Some (home_rest b)) (game_pivot ρ p g)
  = option_list (_ ← date g; h ← ρ (game_id g) home_team_label;
                 a ← ρ (game_id g) away_team_label; Some (game_index g)).
Proof.
  unfold game_pivot, game_index.
  destruct (date g) as [d|]; simpl; [|done].
  destruct (decide (kept ρ p g)) as [Hk|Hk].
  - rewrite filter_cons, filter_nil. simpl.
    destruct (ρ (game_id g) home_team_label) as [h|],
             (ρ (game_id g) away_team_label) as [a|]; by simpl.
  - rewrite filter_nil. unfold kept in Hk.
    destruct (ρ (game_id g) home_team_label) as [h|],
             (ρ (game_id g) away_team_label) as [a|]; simpl; try done;
      destruct Hk; right; first [by left; eexists | by right; eexists].
Qed.

(** X3. When both rest columns hold a value somewhere, the rows of
    [by_game.dropna()] are the games [delta] has an entry for: the two
    tables carry the same index labels in the same order, whether or not
    [pivot_table] keeps the rows without a rest value. *)
Theorem by_game_dropna_index (p : nan_groups) (strptime : string → option Z)
    (lines : list csv_row) (gs : list game) :
  games strptime lines = Some gs →
  rest_columns_exist (df p gs) →
  by_game_index <$> by_game_dropna p (by_game p gs) = (λ e, e.1) <$> delta (df p gs).
Proof.
  intros Hgs%games_increasing Hcols.
  destruct (by_game_has_columns p gs Hgs Hcols) as [Haway Hhome].
  unfold by_game_dropna.
  rewrite (filter_ext_elem _ (λ b, is_Some (away_rest b) ∧ is_Some (home_rest b)))
    by (intros b _; tauto).
  rewrite by_game_rows, df_rows, delta_rows by done.
  rewrite filter_bind, fmap_bind_list, list_fmap_omap.
  apply bind_omap. intros g _. rewrite complete_rows_game.
  destruct (date g); simpl; [|done].
  by destruct (rest_of gs (game_id g) home_team_label),
              (rest_of gs (game_id g) away_team_label).
Qed.

(** ** When a rest value is missing *)

(** Either no row above position [j] satisfies [P], or there is a last
    one. *)
Lemma latest_earlier {A} (P : A → Prop) `{∀ x, Decision (P x)} (l : list A) (j : nat) :
  (∀ k x, (k < j)%nat → l !! k = Some x → ¬ P x)
  ∨ ∃ i x, (i < j)%nat ∧ l !! i = Some x ∧ P x
           ∧ ∀ k y, (i < k < j)%nat → l !! k = Some y → ¬ P y.
Proof.
  induction j as [|j IH].
  - left. intros k x Hk. lia.
  - destruct (l !! j) as [x|] eqn:Hj.
    + destruct (decide (P x)) as [HP|HP].
      * right. exists j, x. repeat split; [lia|done..|]. intros k y Hk. lia.
      * destruct IH as [Hnone|(i & y & Hi & Hy & HPy & Hbetween)].
        -- left. intros k y Hk Hy. destruct (decide (k = j)) as [->|Hne].
           ++ by simplify_eq.
           ++ apply (Hnone k); [lia|done].
        -- right. exists i, y. repeat split; [lia|done..|].
           intros k z Hk Hz. destruct (decide (k = j)) as [->|Hne].
           ++ by simplify_eq.
           ++ apply (Hbetween k); [lia|done].
    + destruct IH as [Hnone|(i & y & Hi & Hy & HPy & Hbetween)].
      * left. intros k y Hk Hy. destruct (decide (k = j)) as [->|Hne].
        -- by simplify_eq.
        -- apply (Hnone k); [lia|done].
      * right. exists i, y. repeat split; [lia|done..|].
        intros k z Hk Hz. destruct (decide (k = j)) as [->|Hne].
        -- by simplify_eq.
        -- apply (Hbetween k); [lia|done].
Qed.

(** The two ways a row with a team gets its rest: it is the team's first
    row, or it is compared with the team's latest earlier row. *)
Lemma rest_cases rows j r t :
  assign_rest rows !! j = Some r → team (obs r) = Some t →
  ((∀ k o, (k < j)%nat → rows !! k = Some o → team o ≠ Some t) ∧ rest r = None)
  ∨ ∃ i o, (i < j)%nat ∧ rows !! i = Some o ∧ team o = Some t
           ∧ (∀ k o', (i < k < j)%nat → rows !! k = Some o' → team o' ≠ Some t)
           ∧ rest r = (λ n, n - 1) <$> days_between (obs_date (obs r)) (obs_date o).
Proof.
  intros Hr Ht. pose proof Hr as [Hj Hrest]%assign_rest_lookup.
  unfold rest_column in Hrest. rewrite list_lookup_fmap in Hrest.
  destruct (latest_earlier (λ o, team o = Some t) rows j)
    as [Hnone|(i & o & Hi & Ho & Hto & Hbetween)].
  - left. split; [done|].
    rewrite (groupby_diff_first _ _ j (obs r) t) in Hrest by done.
    rewrite lookup_empty in Hrest. simpl in Hrest. congruence.
  - right. exists i, o. repeat split; try done.
    rewrite (groupby_diff_previous _ _ i j o (obs r) t) in Hrest by done.
    simpl in Hrest. congruence.
Qed.

(** X5. A row of the long table lacks a rest value in four cases and no
    other: it has no team; it has no date; no row above it has its team;
    or the latest row above it with its team has no date. *)
Theorem rest_missing_iff (gs : list game) (j : nat) (r : tidy_row) :
  assign_rest (tidy gs) !! j = Some r →
  (rest r = None ↔
     team (obs r) = None
     ∨ obs_date (obs r) = None
     ∨ (∀ k o, (k < j)%nat → tidy gs !! k = Some o → team o ≠ team (obs r))
     ∨ ∃ i o, (i < j)%nat ∧ tidy gs !! i = Some o ∧ team o = team (obs r)
              ∧ (∀ k o', (i < k < j)%nat → tidy gs !! k = Some o' →
                         team o' ≠ team (obs r))
              ∧ obs_date o = None).
Proof.
  intros Hr. destruct (team (obs r)) as [t|] eqn:Ht.
  - destruct (rest_cases _ _ _ _ Hr Ht)
      as [[Hnone Hrest]|(i & o & Hi & Ho & Hto & Hbetween & Hrest)].
    + split; [|done]. intros _. right. right. by left.
    + rewrite Hrest. split.
      * intros Hmiss. destruct (obs_date (obs r)) as [d|]; [|by right; left].
        destruct (obs_date o) as [d'|] eqn:Hd; [done|].
        right. right. right. by exists i, o.
      * intros [[=]|[Hd|[Hnone|(i' & o' & Hi' & Ho' & Hto' & Hbetween' & Hd')]]].
        -- by rewrite Hd.
        -- by destruct (Hnone i o Hi Ho).
        -- assert (i' = i) as ->.
           { destruct (decide (i' < i)%nat) as [Hlt|Hge].
             - by destruct (Hbetween' i o ltac:(lia) Ho).
             - destruct (decide (i < i')%nat) as [Hlt|Hge']; [|lia].
               destruct (Hbetween i' o' ltac:(lia) Ho'). congruence. }
           simplify_eq. rewrite Hd'. by destruct (obs_date (obs r)).
  - split; [by left|]. intros _.
    destruct (rest r) as [v|] eqn:Hv; [|done].
    destruct (rest_needs_team _ _ _ Hr) as [t' Ht']; [by eexists|]. congruence.
Qed.

(** ** A schedule in date order *)

Lemma StronglySorted_bind_rel {A B} (RA : relation A) (RB : relation B)
    (f : A → list B) (l : list A) :
  StronglySorted RA l →
  (∀ x, StronglySorted RB (f x)) →
  (∀ x y b b', RA x y → b ∈ f x → b' ∈ f y → RB b b') →
  StronglySorted RB (l ≫= f).
Proof.
  intros Hl Hf Hcross. induction Hl as [|x l Hl IH Hx]; [constructor|].
  rewrite bind_cons. apply StronglySorted_app_2; [|done..].
  intros b b' Hb (y & Hb' & Hy)%list_elem_of_bind.
  rewrite Forall_forall in Hx. apply (Hcross x y); [by apply Hx|done..].
Qed.

Lemma tidy_chronological gs :
  increasing_ids gs → chronological gs →
  StronglySorted (λ a b, not_after (obs_date a) (obs_date b)) (tidy gs).
Proof.
  intros Hgs Hch. rewrite tidy_increasing by done.
  apply (StronglySorted_bind_rel _ _ _ _ Hch).
  - intros g. repeat constructor. intros x y Hx Hy. simpl in *.
    assert (x = y) by congruence. lia.
  - intros g g' b b' Hgg'. unfold both_observations.
    rewrite !elem_of_cons, !elem_of_nil. by intros [-> | [-> | []]] [-> | [-> | []]].
Qed.

(** X6. When the loaded schedule is in date order, no rest value is below
    -1, and a rest of -1 means that the team's previous row carries the
    same date: the team plays twice that day, or plays itself. *)
Theorem rest_at_least_minus_one (strptime : string → option Z) (lines : list csv_row)
    (gs : list game) (j : nat) (r : tidy_row) (v : Z) :
  games strptime lines = Some gs →
  chronological gs →
  assign_rest (tidy gs) !! j = Some r →
  rest r = Some v →
  -1 ≤ v
  ∧ (v = -1 → ∃ i o, (i < j)%nat ∧ tidy gs !! i = Some o
                     ∧ team o = team (obs r) ∧ obs_date o = obs_date (obs r)).
Proof.
  intros Hgs%games_increasing Hch Hr Hv.
  destruct (rest_needs_team _ _ _ Hr) as [t Ht]; [by eexists|].
  destruct (rest_cases _ _ _ _ Hr Ht)
    as [[_ Hrest]|(i & o & Hi & Ho & Hto & _ & Hrest)]; [congruence|].
  rewrite Hv in Hrest.
  destruct (obs_date (obs r)) as [d|] eqn:Hd; [|done].
  destruct (obs_date o) as [d'|] eqn:Hd'; [|done].
  simpl in Hrest. injection Hrest as ->.
  pose proof Hr as [Hj _]%assign_rest_lookup.
  pose proof (StronglySorted_lookup _ _ i j o (obs r) (tidy_chronological gs Hgs Hch)
                Ho Hj Hi d' d Hd' Hd) as Hle.
  split; [lia|]. intros Heq. exists i, o. repeat split; try done; [congruence|].
  rewrite Hd'. f_equal. lia.
Qed.

Lemma rest_needs_date rows j r :
  assign_rest rows !! j = Some r → is_Some (rest r) → is_Some (obs_date (obs r)).
Proof.
  intros Hr Hsome. destruct (rest_needs_team _ _ _ Hr Hsome) as [t Ht].
  destruct (rest_cases _ _ _ _ Hr Ht) as [[_ Hrest]|(i & o & _ & _ & _ & _ & Hrest)];
    rewrite Hrest in Hsome; [by destruct Hsome|].
  destruct (obs_date (obs r)); [by eexists | by destruct Hsome].
Qed.

(** X7. [tidy.dropna()] removes exactly the rows without a rest value: a
    row that has a rest value always has a team and a date, so no row is
    dropped for another missing cell. *)
Theorem tidy_dropna_is_rest_present (rows : list observation) :
  tidy_dropna (assign_rest rows) = filter (λ r, is_Some (rest r)) (assign_rest rows).
Proof.
  apply filter_ext_elem. intros r [j Hj]%list_elem_of_lookup. split; [tauto|].
  intros Hsome. split; [by eapply rest_needs_date|]. split; [by eapply rest_needs_team|done].
Qed.

(** ** The bar chart of the rest differences *)

Lemma foldr_min_spec x l :
  foldr Z.min x l ∈ x :: l ∧ ∀ v, v ∈ x :: l → foldr Z.min x l ≤ v.
Proof.
  induction l as [|y l [IHin IHle]]; simpl.
  - split; [by left|]. intros v. rewrite elem_of_cons, elem_of_nil. intros [-> | []]. lia.
  - split.
    + destruct (Z.min_spec y (foldr Z.min x l)) as [[_ ->] | [_ ->]].
      * right. by left.
      * apply elem_of_cons in IHin as [Hx | Hl]; [rewrite Hx; by left|]. right. by right.
    + intros v. rewrite !elem_of_cons. intros [-> | [-> | Hv]].
      * specialize (IHle x ltac:(by left)). lia.
      * lia.
      * specialize (IHle v ltac:(by right)). lia.
Qed.

Lemma foldr_max_spec x l :
  foldr Z.max x l ∈ x :: l ∧ ∀ v, v ∈ x :: l → v ≤ foldr Z.max x l.
Proof.
  induction l as [|y l [IHin IHle]]; simpl.
  - split; [by left|]. intros v. rewrite elem_of_cons, elem_of_nil. intros [-> | []]. lia.
  - split.
    + destruct (Z.max_spec y (foldr Z.max x l)) as [[_ ->] | [_ ->]].
      * apply elem_of_cons in IHin as [Hx | Hl]; [rewrite Hx; by left|]. right. by right.
      * right. by left.
    + intros v. rewrite !elem_of_cons. intros [-> | [-> | Hv]].
      * specialize (IHle x ltac:(by left)). lia.
      * lia.
      * specialize (IHle v ltac:(by right)). lia.
Qed.

Lemma value_counts_lookup xs v :
  default 0%nat (value_counts xs !! v) = length (filter (λ x, x = v) xs).
Proof.
  induction xs as [|x xs IH]; [done|].
  unfold value_counts. simpl. fold (value_counts xs).
  rewrite filter_cons. destruct (decide (x = v)) as [->|Hne].
  - rewrite lookup_insert_eq. simpl. by rewrite IH.
  - by rewrite lookup_insert_ne.
Qed.

Lemma Sorted_fmap_seq {B} (R : relation B) (g : nat → B) (s k : nat) :
  (∀ i, R (g i) (g (S i))) → Sorted R (g <$> seq s k).
Proof.
  intros Hstep. revert s. induction k as [|k IH]; intros s; [constructor|].
  simpl. constructor; [apply IH|]. destruct k; simpl; constructor. apply Hstep.
Qed.

Lemma sort_index_counts_reindex lo n s :
  sort_index_counts (reindex (seqZ lo n) s) = reindex (seqZ lo n) s.
Proof.
  apply sort_by_sorted. unfold reindex, seqZ. rewrite <- list_fmap_compose.
  apply Sorted_fmap_seq. intros i. simpl. apply bool_decide_eq_true. lia.
Qed.

Lemma length_filter_or {A} (P Q : A → Prop) `{∀ x, Decision (P x)} `{∀ x, Decision (Q x)}
    (l : list A) :
  (∀ x, P x → Q x → False) →
  length (filter (λ x, P x ∨ Q x) l) = (length (filter P l) + length (filter Q l))%nat.
Proof.
  intros Hdisj. induction l as [|x l IH]; [done|].
  rewrite !filter_cons.
  destruct (decide (P x)) as [HP|HP], (decide (Q x)) as [HQ|HQ].
  - by destruct (Hdisj x).
  - rewrite decide_True by by left. simpl. by rewrite IH.
  - rewrite decide_True by by right. simpl. rewrite IH. lia.
  - rewrite decide_False by tauto. done.
Qed.

(** Counting value by value over distinct labels counts every entry that
    carries one of the labels once. *)
Lemma sum_counts (labels xs : list Z) :
  NoDup labels →
  sum_list ((λ v, length (filter (λ x, x = v) xs)) <$> labels)
  = length (filter (λ x, x ∈ labels) xs).
Proof.
  induction 1 as [|v labels Hv Hnd IH].
  - symmetry. apply length_zero_iff_nil, filter_none. intros x _. apply not_elem_of_nil.
  - rewrite fmap_cons.
    change (length (filter (λ x, x = v) xs)
            + sum_list ((λ v, length (filter (λ x, x = v) xs)) <$> labels)
            = length (filter (λ x, x ∈ v :: labels) xs))%nat.
    rewrite IH, <- length_filter_or.
    + f_equal. apply list_filter_iff. intros x. rewrite elem_of_cons. tauto.
    + intros x -> Hin. done.
Qed.

Lemma filter_all {A} (P : A → Prop) `{∀ x, Decision (P x)} (l : list A) :
  (∀ x, x ∈ l → P x) → filter P l = l.
Proof.
  induction l as [|x l IH]; intros Hl; [done|].
  rewrite filter_cons_True by (apply Hl; by left).
  f_equal. apply IH. intros y Hy. apply Hl. by right.
Qed.

Lemma elem_of_reindex v n labels s :
  (v, n) ∈ reindex labels s → n = default 0%nat (s !! v).
Proof. unfold reindex. by intros (v' & [= -> ->] & _)%list_elem_of_fmap. Qed.

Lemma delta_counts_Some d lo hi :
  series_min d.*2 = Some lo → series_max d.*2 = Some hi →
  delta_counts d = Some (reindex (seqZ lo (hi + 1 - lo)) (value_counts d.*2)).
Proof.
  intros Hlo Hhi. unfold delta_counts. rewrite Hlo, Hhi. simpl.
  unfold arange. by rewrite sort_index_counts_reindex.
Qed.

(** X8. The bar chart of the rest differences cannot be drawn from an empty
    [delta]: the bounds of the range are missing. Otherwise it has one bar
    for every integer from the smallest difference to the largest, in
    increasing order and without gaps; each bar counts the games with that
    difference, zero where there is none; and the bars together count
    every game of [delta] once. *)
Theorem delta_counts_spec (d : list (nat * option Z * Z)) :
  match delta_counts d with
  | None => d = []
  | Some bars =>
      ∃ lo hi, lo ∈ d.*2 ∧ hi ∈ d.*2 ∧ (∀ v, v ∈ d.*2 → lo ≤ v ≤ hi)
        ∧ bars.*1 = seqZ lo (hi + 1 - lo)
        ∧ (∀ v n, (v, n) ∈ bars → n = length (filter (λ e, e.2 = v) d))
        ∧ sum_list bars.*2 = length d
  end.
Proof.
  destruct d as [|e d]; [done|].
  set (d' := e :: d). set (xs := d'.*2).
  destruct (foldr_min_spec e.2 d.*2) as [Hlo_in Hlo].
  destruct (foldr_max_spec e.2 d.*2) as [Hhi_in Hhi].
  set (lo := foldr Z.min e.2 d.*2) in *. set (hi := foldr Z.max e.2 d.*2) in *.
  rewrite (delta_counts_Some d' lo hi) by done.
  exists lo, hi. split; [done|]. split; [done|]. split; [|split; [|split]].
  - intros v Hv. split; [by apply Hlo | by apply Hhi].
  - unfold reindex. rewrite <- list_fmap_compose. apply list_fmap_id.
  - intros v n Hvn%elem_of_reindex. rewrite Hvn.
    rewrite value_counts_lookup, filter_fmap. by rewrite length_fmap.
  - unfold reindex. rewrite <- list_fmap_compose.
    rewrite (fmap_ext_elem _ (λ v, length (filter (λ x, x = v) xs))).
    + rewrite sum_counts by apply NoDup_seqZ.
      rewrite filter_all; [unfold xs; by rewrite length_fmap|].
      intros x Hx. apply elem_of_seqZ. specialize (Hlo x Hx). specialize (Hhi x Hx). lia.
    + intros v _. apply value_counts_lookup.
Qed.

(** ** Rest by date *)

Lemma date_group_leb_total x y : date_group_leb x y = true ∨ date_group_leb y x = true.
Proof. unfold date_group_leb. order_crush. Qed.

Lemma date_group_leb_trans x y z :
  date_group_leb x y = true → date_group_leb y z = true → date_group_leb x z = true.
Proof. unfold date_group_leb. order_crush. Qed.

Lemma date_group_leb_antisym x y :
  date_group_leb x y = true → date_group_leb y x = true → x = y.
Proof. unfold date_group_leb. order_crush. Qed.

Lemma mean_is_Some xs : is_Some (mean xs) ↔ ∃ x, Some x ∈ xs.
Proof.
  unfold mean. split.
  - destruct (omap id xs) as [|v vs] eqn:Hvs; [by intros [? [=]]|]. intros _.
    exists v. assert (v ∈ omap id xs) as Hv by (rewrite Hvs; by left).
    apply list_elem_of_omap in Hv as (x & Hx & Hid). simpl in Hid. by subst.
  - intros [x Hx]. assert (x ∈ omap id xs) as Hin.
    { apply list_elem_of_omap. by exists (Some x). }
    destruct (omap id xs); [by apply elem_of_nil in Hin | by eexists].
Qed.

Lemma omap_cons_eq {A B} (f : A → option B) (x : A) (l : list A) :
  omap f (x :: l) = match f x with Some y => y :: omap f l | None => omap f l end.
Proof. done. Qed.

(** The entries of one key in a series built key by key with [dropna]. *)
Lemma filter_omap_key {K V} `{EqDecision K} (m : K → option V) (ks : list K) (k : K) :
  NoDup ks →
  filter (λ e, e.1 = k) (omap (λ k, q ← m k; Some (k, q)) ks)
  = if decide (k ∈ ks) then match m k with Some q => [(k, q)] | None => [] end else [].
Proof.
  induction 1 as [|k' ks Hk' Hnd IH]; [done|].
  rewrite omap_cons_eq. destruct (decide (k' = k)) as [->|Hne].
  - rewrite decide_True by by left. destruct (m k) as [q|]; cbn [mbind option_bind].
    + rewrite filter_cons_True by done. rewrite IH, decide_False by done. done.
    + by rewrite IH, decide_False by done.
  - assert (filter (λ e : K * V, e.1 = k)
              match m k' ≫= (λ q, Some (k', q)) with
              | Some y => y :: omap (λ k, q ← m k; Some (k, q)) ks
              | None => omap (λ k, q ← m k; Some (k, q)) ks
              end
            = filter (λ e : K * V, e.1 = k) (omap (λ k, q ← m k; Some (k, q)) ks)) as ->.
    { destruct (m k') as [q|]; cbn [mbind option_bind]; [|done].
      by rewrite filter_cons_False. }
    rewrite IH. destruct (decide (k ∈ ks)) as [Hin|Hin].
    + rewrite decide_True by by right. done.
    + rewrite decide_False; [done|]. rewrite elem_of_cons. intros [-> | ?]; done.
Qed.

(** A cell of [rest.unstack()] is the mean of the rest values of its date
    and tag. *)
Lemma unstacked_rest_mean rows d v :
  unstacked_rest (rest_by_date rows) d v
  = mean (rest <$> filter (λ r, date_group r = Some (d, v)) rows).
Proof.
  unfold unstacked_rest, rest_by_date. rewrite filter_omap_key.
  - case_decide as Hin.
    + by destruct (mean _).
    + rewrite filter_none; [done|]. intros r Hr Hgroup. destruct Hin.
      apply elem_of_sort_unique; [apply date_group_leb_antisym|].
      apply list_elem_of_omap. by exists r.
  - eapply strictly_sorted_NoDup, sort_unique_sorted;
      [apply date_group_leb_total | apply date_group_leb_trans
      | apply date_group_leb_antisym].
Qed.

Lemma elem_of_rest_by_date rows k q :
  (k, q) ∈ rest_by_date rows
  ↔ mean (rest <$> filter (λ r, date_group r = Some k) rows) = Some q.
Proof.
  unfold rest_by_date. rewrite list_elem_of_omap. split.
  - intros (k' & _ & Hk'). destruct (mean _) as [q'|] eqn:Hmean; simpl in Hk'; [|done].
    by simplify_eq.
  - intros Hmean. exists k. rewrite Hmean. split; [|done].
    apply elem_of_sort_unique; [apply date_group_leb_antisym|].
    destruct (mean_is_Some (rest <$> filter (λ r, date_group r = Some k) rows))
      as [(x & Hx) _]; [by eexists|].
    apply list_elem_of_fmap in Hx as (r & _ & Hr). apply list_elem_of_filter in Hr as [Hk Hr].
    apply list_elem_of_omap. by exists r.
Qed.

Lemma mean_group_is_Some rows d v :
  is_Some (mean (rest <$> filter (λ r, date_group r = Some (d, v)) rows))
  ↔ ∃ r, r ∈ rows ∧ obs_date (obs r) = Some d ∧ obs_variable (obs r) = v
         ∧ is_Some (rest r).
Proof.
  rewrite mean_is_Some. split.
  - intros (x & (r & Hx & Hr)%list_elem_of_fmap).
    apply list_elem_of_filter in Hr as [Hk Hr]. exists r. unfold date_group in Hk.
    destruct (obs_date (obs r)) as [d'|]; simpl in Hk; [|done]. simplify_eq.
    repeat split; try done; by exists x.
  - intros (r & Hr & Hd & Hv & [x Hx]). exists x. apply list_elem_of_fmap. exists r.
    split; [done|]. apply list_elem_of_filter. split; [|done].
    unfold date_group. rewrite Hd. simpl. by rewrite Hv.
Qed.

Lemma elem_of_unstack_rest_dates rows d :
  d ∈ sort_unique (λ a b, bool_decide (a ≤ b)) ((λ e, e.1.1) <$> rest_by_date rows)
  ↔ ∃ r, r ∈ rows ∧ obs_date (obs r) = Some d ∧ is_Some (rest r).
Proof.
  rewrite elem_of_sort_unique.
  - rewrite list_elem_of_fmap. split.
    + intros ([[d' v] q] & -> & Hin). simpl. apply elem_of_rest_by_date in Hin.
      destruct (mean_group_is_Some rows d' v) as [(r & Hr & Hd & _ & Hsome) _];
        [by eexists|].
      by exists r.
    + intros (r & Hr & Hd & Hsome).
      destruct (mean_group_is_Some rows d (obs_variable (obs r))) as [_ [q Hq]].
      { by exists r. }
      exists (d, obs_variable (obs r), q). split; [done|]. by apply elem_of_rest_by_date.
  - intros x y. rewrite !bool_decide_eq_true. lia.
Qed.

(** X9. The table [rest.unstack()] has one row for each date on which some
    row of the long table has a rest value, in increasing date order; a
    cell is the mean of the rest values the long table holds for that date
    and tag, missing when there is none; and no row has both cells
    missing. A row without a date is in no group. *)
Theorem rest_by_date_unstacked (rows : list tidy_row) :
  StronglySorted (λ a b, rd_date a < rd_date b) (unstack_rest (rest_by_date rows))
  ∧ (∀ d, d ∈ rd_date <$> unstack_rest (rest_by_date rows)
          ↔ ∃ r, r ∈ rows ∧ obs_date (obs r) = Some d ∧ is_Some (rest r))
  ∧ ∀ w, w ∈ unstack_rest (rest_by_date rows) →
      rd_away w
        = mean (rest <$> filter (λ r, date_group r = Some (rd_date w, away_team_label)) rows)
      ∧ rd_home w
        = mean (rest <$> filter (λ r, date_group r = Some (rd_date w, home_team_label)) rows)
      ∧ (is_Some (rd_away w) ∨ is_Some (rd_home w)).
Proof.
  unfold unstack_rest. split; [|split].
  - eapply StronglySorted_fmap; [|apply sort_unique_sorted].
    + intros x y [Hle Hne]. simpl. apply bool_decide_eq_true in Hle. lia.
    + intros x y. rewrite !bool_decide_eq_true. lia.
    + intros x y z. rewrite !bool_decide_eq_true. lia.
    + intros x y. rewrite !bool_decide_eq_true. lia.
  - intros d. rewrite <- list_fmap_compose. simpl.
    rewrite (fmap_ext_elem _ id) by done. rewrite list_fmap_id.
    apply elem_of_unstack_rest_dates.
  - intros w (d & -> & Hd)%list_elem_of_fmap. simpl.
    rewrite !unstacked_rest_mean. split; [done|]. split; [done|].
    apply elem_of_unstack_rest_dates in Hd as (r & Hr & Hdate & Hsome).
    destruct (obs_variable (obs r)) eqn:Hv; [left|right];
      apply mean_group_is_Some; by exists r.
Qed.

(** ** The win flag, game by game *)

Lemma filter_game_id gs g :
  increasing_ids gs → g ∈ gs → filter (λ g', game_id g' = game_id g) gs = [g].
Proof.
  intros Hgs Hg. apply filter_unique_elem; [|done..|].
  - eapply NoDup_fmap_1, increasing_ids_NoDup, Hgs.
  - intros g' Hg' Hid. by apply (increasing_ids_inj gs).
Qed.

Lemma filter_one_game (P : game → Prop) `{∀ x, Decision (P x)} gs g :
  increasing_ids gs → g ∈ gs →
  (∀ g', P g' → game_id g' = game_id g) →
  filter P gs = if decide (P g) then [g] else [].
Proof.
  intros Hgs Hg HP.
  rewrite <- (list_filter_filter_l P (λ g', game_id g' = game_id g)) by done.
  rewrite (filter_game_id gs g Hgs Hg), filter_cons, filter_nil. done.
Qed.

Lemma home_win_joined ρ g : home_win (game_joined ρ g) = game_home_win g.
Proof. done. Qed.

(** X10. In the second long table every game of the loaded table has
    exactly one row whose [win] is true: its home row when [home_win] is
    true, its away row otherwise, so also when a score is missing or the
    scores are equal. *)
Theorem one_winner_per_game (p : nan_groups) (strptime : string → option Z)
    (lines : list csv_row) (gs : list game) (g : game) :
  games strptime lines = Some gs →
  g ∈ gs →
  filter (λ r, tg_game_id r = game_id g ∧ win r = true) (melt_home_win (df p gs))
  = [TeamGame (game_id g) (date g) (game_home_win g)
       (if game_home_win g then home_team_label else away_team_label)
       (if game_home_win g then home_team g else away_team g)].
Proof.
  intros Hgs%games_increasing Hg. unfold melt_home_win.
  rewrite df_rows by done. rewrite filter_app, !filter_fmap, <- !list_fmap_compose.
  rewrite !(filter_one_game _ gs g Hgs Hg) by (by intros ? [? _]).
  simpl. rewrite win_home_row, win_away_row.
  change (home_win (game_joined (rest_of gs) g)) with (game_home_win g).
  destruct (game_home_win g) eqn:Hwin; simpl.
  - rewrite decide_True by done. rewrite decide_False by (by intros [_ ?]).
    transitivity [TeamGame (game_id g) (date g) (home_win (game_joined (rest_of gs) g))
                    home_team_label (home_team g)]; [done|].
    by rewrite home_win_joined, Hwin.
  - rewrite decide_False by (by intros [_ ?]). rewrite decide_True by done.
    transitivity [TeamGame (game_id g) (date g) (home_win (game_joined (rest_of gs) g))
                    away_team_label (away_team g)]; [done|].
    by rewrite home_win_joined, Hwin.
Qed.

(** ** Home and away win percents side by side *)


(** ** The properties on the small season *)

Lemma delta_is_rest_difference_season :
  games Strptime.strptime Season.lines = Some Season.table
  ∧ rest_columns_exist (df keep_nan_groups Season.table)
  ∧ delta (df keep_nan_groups Season.table)
    = omap (λ g, _ ← date g;
                 h ← rest_of Season.table (game_id g) home_team_label;
                 a ← rest_of Season.table (game_id g) away_team_label;
                 Some (game_index g, h - a)) Season.table.
Proof.
  assert (games Strptime.strptime Season.lines = Some Season.table) as Hgs
    by (vm_compute; reflexivity).
  assert (rest_columns_exist (df keep_nan_groups Season.table)) as Hcols
    by (apply (bool_decide_unpack _); vm_compute; exact I).
  split; [exact Hgs|]. split; [exact Hcols|].
  exact (delta_is_rest_difference keep_nan_groups Strptime.strptime Season.lines
           Season.table Hgs Hcols).
Defined.

Lemma by_game_dropna_index_season :
  games Strptime.strptime Season.lines = Some Season.table
  ∧ rest_columns_exist (df drop_nan_groups Season.table)
  ∧ by_game_index <$> by_game_dropna drop_nan_groups (by_game drop_nan_groups Season.table)
    = (λ e, e.1) <$> delta (df drop_nan_groups Season.table).
Proof.
  assert (games Strptime.strptime Season.lines = Some Season.table) as Hgs
    by (vm_compute; reflexivity).
  assert (rest_columns_exist (df drop_nan_groups Season.table)) as Hcols
    by (apply (bool_decide_unpack _); vm_compute; exact I).
  split; [exact Hgs|]. split; [exact Hcols|].
  exact (by_game_dropna_index drop_nan_groups Strptime.strptime Season.lines
           Season.table Hgs Hcols).
Defined.

Lemma rest_missing_iff_season :
  assign_rest (tidy Season.table) !! 6%nat
    = Some (TidyRow (Observation 4 (Some 16738) away_team_label (Some "Atlanta Hawks"))
                    (Some 2))
  ∧ ¬ (∀ k o, (k < 6)%nat → tidy Season.table !! k = Some o
              → team o ≠ Some "Atlanta Hawks").
Proof.
  assert (assign_rest (tidy Season.table) !! 6%nat
          = Some (TidyRow (Observation 4 (Some 16738) away_team_label (Some "Atlanta Hawks"))
                          (Some 2))) as Hrow by (vm_compute; reflexivity).
  split; [exact Hrow|]. intros Hfirst.
  assert (Some 2 = @None Z) as Hrest; [|discriminate Hrest].
  apply (proj2 (rest_missing_iff Season.table 6 _ Hrow)).
  right. right. left. exact Hfirst.
Defined.

Lemma rest_at_least_minus_one_season :
  games Strptime.strptime Season.lines = Some Season.table
  ∧ chronological Season.table
  ∧ -1 ≤ 2.
Proof.
  assert (games Strptime.strptime Season.lines = Some Season.table) as Hgs
    by (vm_compute; reflexivity).
  assert (chronological Season.table) as Hch.
  { repeat constructor; intros x y [= <-] [= <-]; lia. }
  split; [exact Hgs|]. split; [exact Hch|].
  refine (proj1 (rest_at_least_minus_one Strptime.strptime Season.lines Season.table 6
                   (TidyRow (Observation 4 (Some 16738) away_team_label
                                         (Some "Atlanta Hawks")) (Some 2))
                   2 Hgs Hch _ _)); by vm_compute.
Defined.

Lemma one_winner_per_game_season :
  games Strptime.strptime Season.lines = Some Season.table
  ∧ filter (λ r, tg_game_id r = 1%nat ∧ win r = true)
           (melt_home_win (df keep_nan_groups Season.table))
    = [TeamGame 1 (Some 16735) true home_team_label (Some "Chicago Bulls")].
Proof.
  assert (games Strptime.strptime Season.lines = Some Season.table) as Hgs
    by (vm_compute; reflexivity).
  split; [exact Hgs|].
  refine (one_winner_per_game keep_nan_groups Strptime.strptime Season.lines Season.table
            (Game 1 (Some 16735) (Some "Cleveland Cavaliers") (Some 95)
                  (Some "Chicago Bulls") (Some 97)) Hgs _).
  apply list_elem_of_further, list_elem_of_here.
Defined.

